(** * Syllabus section extraction: a shallow embedding of
      [api/pdf_syllabus_parseer.js]

    The development follows the source file top-down:

    - JavaScript strings are sequences of UTF-16 code units ([list N]);
      [trim], [split], [join], [includes], [startsWith] are the methods
      of [String.prototype] the source calls;
    - the two patterns the source hands to [new RegExp(..., "i")] are
      values of a small pattern syntax ([Regex]) run by a backtracking
      matcher in continuation-passing style, the way the language
      standard defines pattern matching;
    - the helper functions [extractSection],
      [extractSectionWithBoundaries], [extractSectionMultiple] and
      [filterLatePolicy] and the loop over the section catalog;
    - the asynchronous part (file system, pdf-parse, pdf2pic,
      tesseract.js) as a state-and-exception monad over a world made of
      the files on storage and the trace of external calls. *)

From Stdlib Require Import NArith Ascii String Lia.
From stdpp Require Import base option list gmap strings.

Local Open Scope N_scope.
Local Open Scope nat_scope.
Local Open Scope list_scope.

(* ================================================================== *)
(** ** Strings *)
(* ================================================================== *)

(** A JavaScript string: its UTF-16 code units. *)
Abbreviation jsstring := (list N).

(** A string literal of the source, for code units below 256. *)
Definition js (s : string) : jsstring :=
  List.map N_of_ascii (list_ascii_of_string s).

Definition LF : N := 10%N.
Definition COLON : N := 58%N.

(** LineTerminator code points: LF, CR, LS, PS. *)
Definition line_terminators : list N := [10; 13; 0x2028; 0x2029]%N.

(** WhiteSpace code points: TAB, VT, FF, SP, NBSP, ZWNBSP and the
    space separators (category Zs). *)
Definition white_space : list N :=
  [9; 11; 12; 32; 0xA0; 0x1680;
   0x2000; 0x2001; 0x2002; 0x2003; 0x2004; 0x2005;
   0x2006; 0x2007; 0x2008; 0x2009; 0x200A;
   0x202F; 0x205F; 0x3000; 0xFEFF]%N.

Definition memN (c : N) (l : list N) : bool := existsb (N.eqb c) l.

Definition is_LineTerminator (c : N) : bool := memN c line_terminators.

(** What [trim] strips and what [\s] stands for: WhiteSpace and
    LineTerminator. *)
Definition is_space (c : N) : bool := memN c (white_space ++ line_terminators).

Fixpoint drop_spaces (s : jsstring) : jsstring :=
  match s with
  | c :: s' => if is_space c then drop_spaces s' else s
  | [] => []
  end.

(** [String.prototype.trim]. *)
Definition trim (s : jsstring) : jsstring :=
  rev (drop_spaces (rev (drop_spaces s))).

(** [s.startsWith(p)]. *)
Fixpoint startsWith (s p : jsstring) : bool :=
  match p, s with
  | [], _ => true
  | a :: p', b :: s' => N.eqb a b && startsWith s' p'
  | _ :: _, [] => false
  end.

(** [s.includes(needle)]. *)
Fixpoint includes (s needle : jsstring) : bool :=
  startsWith s needle ||
  match s with
  | [] => false
  | _ :: s' => includes s' needle
  end.

(** [s.split(sep)] for a separator of one code unit. The result is never
    empty: [("").split(sep)] is [[""]]. *)
Fixpoint split (sep : N) (s : jsstring) : list jsstring :=
  match s with
  | [] => [[]]
  | c :: s' =>
      if N.eqb c sep then [] :: split sep s'
      else match split sep s' with
           | l :: ls => (c :: l) :: ls
           | [] => [[c]]
           end
  end.

(** [lines.join(sep)]: the empty array joins to the empty string. *)
Fixpoint join (sep : N) (ls : list jsstring) : jsstring :=
  match ls with
  | [] => []
  | [l] => l
  | l :: ls' => l ++ sep :: join sep ls'
  end.

(** Truthiness of a [string | null] value: [null] and [""] are falsy. *)
Definition truthy (v : option jsstring) : bool :=
  match v with
  | Some (_ :: _) => true
  | _ => false
  end.

(* ================================================================== *)
(** ** Case tables of the host *)
(* ================================================================== *)

(** The two places where the program depends on the Unicode case
    tables of the JavaScript engine:
    - [canonicalize]: the [Canonicalize] operation of a pattern compiled
      with the [i] flag (and without [u]), on one code unit;
    - [toLowerCase]: [String.prototype.toLowerCase].
    Everything below is stated for arbitrary tables. *)
Class CaseTables := {
  canonicalize : N → N;
  toLowerCase : jsstring → jsstring
}.

Definition ascii_upper (c : N) : N :=
  if (97 <=? c)%N && (c <=? 122)%N then (c - 32)%N else c.

Definition ascii_lower (c : N) : N :=
  if (65 <=? c)%N && (c <=? 90)%N then (c + 32)%N else c.

(** The tables restricted to ASCII: the letters [a]-[z] and [A]-[Z] are
    paired, every other code unit is left alone. On ASCII text this is
    what the engine computes; the concrete runs below use ASCII text
    only. *)
Definition ascii_tables : CaseTables :=
  {| canonicalize := ascii_upper;
     toLowerCase := List.map ascii_lower |}.

(* ================================================================== *)
(** ** Patterns *)
(* ================================================================== *)

(** One-character atoms. *)
Inductive ClassAtom :=
  | AnyChar                      (* [.]   *)
  | WhiteSpaceClass              (* [\s]  *)
  | Bracket (members : list N).  (* [[...]], members listed *)

(** The fragment of pattern syntax the source uses. Quantifiers apply to
    one-character atoms only, as in both patterns of the source;
    [greedy = false] is the [?] suffix. There is one capturing group. *)
Inductive Regex :=
  | Empty
  | Char (c : N)
  | Atom (a : ClassAtom)
  | Seq (r1 r2 : Regex)
  | Disj (r1 r2 : Regex)
  | Star (a : ClassAtom) (greedy : bool)
  | Plus (a : ClassAtom) (greedy : bool)
  | Group (r : Regex)
  | Lookahead (r : Regex)
  | AssertEnd.

(** The code units from [lo] to [hi], for a range such as [A-Z]. *)
Definition char_range (lo hi : N) : list N :=
  List.map (λ k, (lo + N.of_nat k)%N) (seq 0 (S (N.to_nat hi - N.to_nat lo))).

(** A matcher state: the input still ahead of the end index, and the
    text held by capture group 1 ([None]: undefined). *)
Record MatchState := {
  rest : jsstring;
  cap1 : option jsstring
}.

Definition Continuation := MatchState → option MatchState.

Definition advance (x : MatchState) (s : jsstring) : MatchState :=
  {| rest := s; cap1 := cap1 x |}.

Section Matcher.
Context `{CaseTables}.

(** Two code units match under the [i] flag when they canonicalize to
    the same code unit. *)
Definition ci_eqb (a b : N) : bool := N.eqb (canonicalize a) (canonicalize b).

(** CharacterSetMatcher under the [i] flag: some member of the set
    canonicalizes like the input code unit. *)
Definition set_matches (A : list N) (ch : N) : bool := existsb (λ a, ci_eqb a ch) A.

(** [.] is every code unit but the line terminators (no [s] flag); no
    case pair of the engine's tables joins a line terminator with
    another code unit, so the [i] flag does not change it. *)
Definition class_matches (a : ClassAtom) (ch : N) : bool :=
  match a with
  | AnyChar => negb (is_LineTerminator ch)
  | WhiteSpaceClass => set_matches (white_space ++ line_terminators) ch
  | Bracket members => set_matches members ch
  end.

(** RepeatMatcher for [a*] (greedy: longest first) and [a*?] (lazy:
    shortest first) over a one-character atom. *)
Fixpoint repeat_greedy (a : ClassAtom) (s : jsstring)
    (k : jsstring → option MatchState) : option MatchState :=
  match s with
  | ch :: s' =>
      if class_matches a ch then
        match repeat_greedy a s' k with
        | Some z => Some z
        | None => k s
        end
      else k s
  | [] => k s
  end.

Fixpoint repeat_lazy (a : ClassAtom) (s : jsstring)
    (k : jsstring → option MatchState) : option MatchState :=
  match k s with
  | Some z => Some z
  | None =>
      match s with
      | ch :: s' => if class_matches a ch then repeat_lazy a s' k else None
      | [] => None
      end
  end.

Definition repeat_star (a : ClassAtom) (greedy : bool) :=
  if greedy then repeat_greedy a else repeat_lazy a.

(** The matcher of a pattern: [m r x c] runs [r] from state [x] and
    hands every candidate end state to the continuation [c], in the
    order backtracking tries them; the first accepted one wins. *)
Fixpoint m (r : Regex) (x : MatchState) (c : Continuation) : option MatchState :=
  match r with
  | Empty => c x
  | Char ch =>
      match rest x with
      | a :: s => if ci_eqb ch a then c (advance x s) else None
      | [] => None
      end
  | Atom a =>
      match rest x with
      | ch :: s => if class_matches a ch then c (advance x s) else None
      | [] => None
      end
  | Seq r1 r2 => m r1 x (λ y, m r2 y c)
  | Disj r1 r2 =>
      match m r1 x c with
      | Some z => Some z
      | None => m r2 x c
      end
  | Star a greedy => repeat_star a greedy (rest x) (λ s, c (advance x s))
  | Plus a greedy =>
      match rest x with
      | ch :: s =>
          if class_matches a ch
          then repeat_star a greedy s (λ s', c (advance x s'))
          else None
      | [] => None
      end
  | Group r =>
      m r x (λ y, c {| rest := rest y;
                        cap1 := Some (take (length (rest x) - length (rest y)) (rest x)) |})
  | Lookahead r =>
      match m r x Some with
      | Some y => c {| rest := rest x; cap1 := cap1 y |}
      | None => None
      end
  | AssertEnd =>
      match rest x with
      | [] => c x
      | _ :: _ => None
      end
  end.

(** [RegExpBuiltinExec] for a pattern without the [g] and [y] flags:
    try every start index from 0 to the length of the text, leftmost
    first. The result is the index of the match and the end state. *)
Fixpoint scan (r : Regex) (s : jsstring) (i : nat) : option (nat * MatchState) :=
  match m r {| rest := s; cap1 := None |} Some with
  | Some y => Some (i, y)
  | None =>
      match s with
      | [] => None
      | _ :: s' => scan r s' (S i)
      end
  end.

Definition exec (r : Regex) (text : jsstring) : option (nat * MatchState) :=
  scan r text 0.

(** A heading or boundary spliced into the pattern source contributes
    the sequence of its characters, provided it holds none of the
    syntax characters of patterns (see [plain]). *)
Definition lit (s : jsstring) : Regex := foldr (λ ch r, Seq (Char ch) r) Empty s.

(** [`${heading}\s*[:\n]+\s*(.*?)(?=${look})`] *)
Definition section_pattern (heading : jsstring) (look : Regex) : Regex :=
  Seq (lit heading)
    (Seq (Star WhiteSpaceClass true)
      (Seq (Plus (Bracket [COLON; LF]) true)
        (Seq (Star WhiteSpaceClass true)
          (Seq (Group (Star AnyChar false))
               (Lookahead look))))).

(** [\n[A-Z][a-z]|$] *)
Definition default_look : Regex :=
  Disj (Seq (Char LF)
         (Seq (Atom (Bracket (char_range 65 90)))
              (Atom (Bracket (char_range 97 122)))))
       AssertEnd.

(** [endBoundaries.map(b => `\\n${b}`).join("|")] followed by [|$]. An
    empty array joins to the empty string, which leaves [(?=|$)]. *)
Definition boundary_look (endBoundaries : list jsstring) : Regex :=
  match endBoundaries with
  | [] => Disj Empty AssertEnd
  | _ :: _ => foldr (λ b r, Disj (Seq (Char LF) (lit b)) r) AssertEnd endBoundaries
  end.

(** [match ? match[1].trim() : null]. Group 1 takes part in every
    match of a section pattern ([section_match_shape] below); calling
    [trim] on an undefined capture would throw, which the model
    renders as the empty capture. *)
Definition trimmed_group1 (r : option (nat * MatchState)) : option jsstring :=
  match r with
  | Some (_, y) => Some (trim (default [] (cap1 y)))
  | None => None
  end.

Definition extractSection (text sectionHeading : jsstring) : option jsstring :=
  trimmed_group1 (exec (section_pattern sectionHeading default_look) text).

Definition extractSectionWithBoundaries (text startHeading : jsstring)
    (endBoundaries : list jsstring) : option jsstring :=
  trimmed_group1 (exec (section_pattern startHeading (boundary_look endBoundaries)) text).

Fixpoint extractSectionMultiple (text : jsstring) (possibleHeadings : list jsstring)
    : option jsstring :=
  match possibleHeadings with
  | [] => None
  | heading :: more =>
      let sectionText := extractSection text heading in
      if truthy sectionText then sectionText
      else extractSectionMultiple text more
  end.

Definition mentions_late_or_penalty (line : jsstring) : bool :=
  includes (toLowerCase line) (js "late") || includes (toLowerCase line) (js "penalty").

Definition filterLatePolicy (text : jsstring) : jsstring :=
  let lines := split LF text in
  let filtered := List.filter mentions_late_or_penalty lines in
  join LF filtered.

End Matcher.

(* ================================================================== *)
(** ** The section catalog and the loop of the route handler *)
(* ================================================================== *)

(** One entry of the [sections] object literal. [boundaries] and
    [filter] are optional properties. *)
Record SectionParams := {
  headings : list jsstring;
  boundaries : option (list jsstring);
  filter : option string
}.

(** The entries of the [sections] literal. *)
Definition late_policy_params : SectionParams :=
  {| headings := [js "Homework:"];
     boundaries := None;
     filter := Some "late_policy"%string |}.

Definition grading_policy_params : SectionParams :=
  {| headings := [js "Grading Scale:"; js "Grading Scale"];
     boundaries := Some [js "Attendance"; js "Course Policies"];
     filter := None |}.

Definition grading_weights_params : SectionParams :=
  {| headings := [js "Grade Evaluation:"; js "Grade Evaluation";
                  js "Graded Work:"; js "Graded Work"];
     boundaries := Some [js "Grading Scale"];
     filter := None |}.

(** The [sections] literal, in property order (the order in which
    [Object.entries] lists string keys). *)
Definition sections : list (string * SectionParams) :=
  [ ("Late Policy", late_policy_params);
    ("Grading Policy", grading_policy_params);
    ("Grading Weights", grading_weights_params) ]%string.

(** A plain object with string keys and [string | null] values, as the
    list of its properties in insertion order. *)
Abbreviation JSObject := (list (string * option jsstring)).

(** [o[k] = v]: an existing property keeps its place, a new one goes
    last. *)
Fixpoint set_property (o : JSObject) (k : string) (v : option jsstring) : JSObject :=
  match o with
  | [] => [(k, v)]
  | (k', v') :: o' =>
      if String.eqb k' k then (k', v) :: o'
      else (k', v') :: set_property o' k v
  end.

(** [o[k]]; the outer [None] is [undefined]. *)
Fixpoint get_property (o : JSObject) (k : string) : option (option jsstring) :=
  match o with
  | [] => None
  | (k', v) :: o' => if String.eqb k' k then Some v else get_property o' k
  end.

Section Catalog.
Context `{CaseTables}.

(** [for (const heading of headings) { sectionText =
    extractSectionWithBoundaries(...); if (sectionText) break; }]:
    the variable keeps the value of the last call when no call gives a
    truthy one. *)
Fixpoint boundary_pass (pdfText : jsstring) (headings : list jsstring)
    (bs : list jsstring) (sectionText : option jsstring) : option jsstring :=
  match headings with
  | [] => sectionText
  | heading :: more =>
      let sectionText := extractSectionWithBoundaries pdfText heading bs in
      if truthy sectionText then sectionText
      else boundary_pass pdfText more bs sectionText
  end.

(** The body of the loop over the catalog, up to the filter. *)
Definition locateSection (pdfText : jsstring) (params : SectionParams) : option jsstring :=
  match boundaries params with
  | Some bs =>
      let sectionText := boundary_pass pdfText (headings params) bs None in
      if truthy sectionText then sectionText
      else extractSectionMultiple pdfText (headings params)
  | None => extractSectionMultiple pdfText (headings params)
  end.

(** [if (section === "Late Policy" && sectionText) sectionText =
    filterLatePolicy(sectionText)]. The test is on the section name;
    the [filter] property of the entry is not read. *)
Definition sectionValue (pdfText : jsstring) (section : string)
    (params : SectionParams) : option jsstring :=
  let sectionText := locateSection pdfText params in
  if String.eqb section "Late Policy" && truthy sectionText
  then filterLatePolicy <$> sectionText
  else sectionText.

(** The object built by the loop: [extractedData]. *)
Definition extractedData (pdfText : jsstring) : JSObject :=
  fold_left
    (λ o entry, set_property o entry.1 (sectionValue pdfText entry.1 entry.2))
    sections [].

End Catalog.

(* ================================================================== *)
(** ** Storage, external services and the route handler *)
(* ================================================================== *)

Abbreviation Buffer := (list Byte.byte).

(** The calls that leave the program, with their outcome. *)
Inductive Event :=
  | ReadFile (p : string) (ok : bool)
  | PdfParse (ok : bool)
  | Convert (page : nat) (image : option string)
  | Recognize (image : string) (text : option jsstring)
  | Unlink (p : string) (ok : bool).

(** The files on storage and the calls made so far, oldest first. *)
Record World := {
  files : gmap string Buffer;
  trace : list Event
}.

(** The three libraries, as functions of the bytes they are given;
    [None] is a rejected promise.
    - [pdfParse]: [data.text] and [data.numpages];
    - [convert]: pdf2pic's converter for one page: the path and the
      bytes of the image it saves;
    - [recognize]: tesseract.js with the ["eng"] model. *)
Record Services := {
  pdfParse : Buffer → option (jsstring * nat);
  convert : Buffer → nat → option (string * Buffer);
  recognize : Buffer → option jsstring
}.

Inductive Outcome (A : Type) :=
  | Returned (a : A)
  | Thrown.
Arguments Returned {A} a.
Arguments Thrown {A}.

(** An [async] computation: it returns or throws, and changes the
    world either way. *)
Definition Async (A : Type) : Type := World → Outcome A * World.

Definition ret {A} (a : A) : Async A := λ w, (Returned a, w).

Definition throw {A} : Async A := λ w, (Thrown, w).

Definition bind {A B} (c : Async A) (k : A → Async B) : Async B :=
  λ w, match c w with
       | (Returned a, w') => k a w'
       | (Thrown, w') => (Thrown, w')
       end.

(** [try { c } catch (err) { h }] *)
Definition try_catch {A} (c : Async A) (h : Async A) : Async A :=
  λ w, match c w with
       | (Returned a, w') => (Returned a, w')
       | (Thrown, w') => h w'
       end.

(** stdpp's monad notation: [x ← c; k] is [bind c (λ x, k)]. *)
#[global] Instance Async_ret : MRet Async := @ret.
#[global] Instance Async_bind : MBind Async := λ A B k c, bind c k.

Definition log (e : Event) (w : World) : World :=
  {| files := files w; trace := trace w ++ [e] |}.

(** [fs.readFile(p)] *)
Definition readFile (p : string) : Async Buffer :=
  λ w, match files w !! p with
       | Some b => (Returned b, log (ReadFile p true) w)
       | None => (Thrown, log (ReadFile p false) w)
       end.

(** [fs.unlink(p)]: throws when there is no such file. *)
Definition unlink (p : string) : Async unit :=
  λ w, match files w !! p with
       | Some _ =>
           (Returned (), {| files := delete p (files w);
                            trace := trace w ++ [Unlink p true] |})
       | None => (Thrown, log (Unlink p false) w)
       end.

(** [req.file], as multer leaves it. *)
Record UploadedFile := {
  originalname : jsstring;
  path : string
}.

Record Request := { file : option UploadedFile }.

Inductive Body :=
  | ErrorBody (error : string)
  | DataBody (data : JSObject).

(** [res.status(s).json(body)]; [res.json(body)] has status 200. *)
Inductive Response := Json (status : nat) (body : Body).

Section Handler.
Context `{CaseTables}.
Variable sv : Services.

Definition call_pdfParse (dataBuffer : Buffer) : Async (jsstring * nat) :=
  λ w, match pdfParse sv dataBuffer with
       | Some data => (Returned data, log (PdfParse true) w)
       | None => (Thrown, log (PdfParse false) w)
       end.

(** [converter(i)], for the converter made by [fromPath(pdfPath,
    options)]: renders page [i] of the file at [pdfPath] and saves the
    image. *)
Definition converter (pdfPath : string) (i : nat) : Async string :=
  λ w, match files w !! pdfPath with
       | Some doc =>
           match convert sv doc i with
           | Some (image, bytes) =>
               (Returned image,
                {| files := <[image := bytes]> (files w);
                   trace := trace w ++ [Convert i (Some image)] |})
           | None => (Thrown, log (Convert i None) w)
           end
       | None => (Thrown, log (Convert i None) w)
       end.

(** [Tesseract.recognize(image, "eng", ...)] *)
Definition Tesseract_recognize (image : string) : Async jsstring :=
  λ w, match files w !! image with
       | Some bytes =>
           match recognize sv bytes with
           | Some text => (Returned text, log (Recognize image (Some text)) w)
           | None => (Thrown, log (Recognize image None) w)
           end
       | None => (Thrown, log (Recognize image None) w)
       end.

(** The [catch] blocks of both helpers log and rethrow. *)
Definition extractTextFromPDF (pdfPath : string) : Async jsstring :=
  try_catch
    (dataBuffer ← readFile pdfPath;
     data ← call_pdfParse dataBuffer;
     ret data.1)
    throw.

(** [for (let i = 1; i <= numPages; i++) { ... }], with [remaining]
    the number of iterations left: [remaining = numPages + 1 - i]. *)
Fixpoint ocr_pages (pdfPath : string) (remaining i : nat) (ocrText : jsstring)
    : Async jsstring :=
  match remaining with
  | 0 => ret ocrText
  | S remaining' =>
      image ← converter pdfPath i;
      text ← Tesseract_recognize image;
      let ocrText := ocrText ++ text ++ [LF] in
      _ ← unlink image;
      ocr_pages pdfPath remaining' (S i) ocrText
  end.

Definition extractTextWithOCR (pdfPath : string) : Async jsstring :=
  try_catch
    (dataBuffer ← readFile pdfPath;
     parsed ← call_pdfParse dataBuffer;
     let numPages := parsed.2 in
     ocr_pages pdfPath numPages 1 [])
    throw.

(** [!pdfText.trim() || pdfText.trim().startsWith("%PDF")] *)
Definition needs_ocr (pdfText : jsstring) : bool :=
  negb (truthy (Some (trim pdfText))) || startsWith (trim pdfText) (js "%PDF").

(** [app.post("/extract", upload.single("file"), async (req, res) => ...)] *)
Definition post_extract (req : Request) : Async Response :=
  try_catch
    (match file req with
     | None => ret (Json 400 (ErrorBody "No file provided."))
     | Some f =>
         match originalname f with
         | [] => ret (Json 400 (ErrorBody "No file selected."))
         | _ :: _ =>
             let filePath := path f in
             pdfText ← extractTextFromPDF filePath;
             pdfText ← (if needs_ocr pdfText
                        then extractTextWithOCR filePath
                        else ret pdfText);
             let data := extractedData pdfText in
             _ ← unlink filePath;
             ret (Json 200 (DataBody data))
         end
     end)
    (ret (Json 500 (ErrorBody "Internal Server Error"))).

End Handler.


(** The texts the recognition returned, in call order. *)
Definition texts_recognized (t : list Event) : list jsstring :=
  omap (λ e, match e with Recognize _ (Some text) => Some text | _ => None end) t.

(** The calls of one full iteration of the OCR loop. *)
Definition page_events (i : nat) (image : string) (text : jsstring) : list Event :=
  [Convert i (Some image); Recognize image (Some text); Unlink image true].

(** The calls of full iterations from page [i] on, for the images and
    texts listed. *)
Fixpoint ocr_trace (i : nat) (pages : list (string * jsstring)) : list Event :=
  match pages with
  | [] => []
  | (image, text) :: more => page_events i image text ++ ocr_trace (S i) more
  end.

(** Every page from [1] to [numPages] of [doc] converts to an image
    saved elsewhere than at [p], and the image is recognized. *)
Definition pages_ok (sv : Services) (doc : Buffer) (p : string) (numPages : nat) : Prop :=
  ∀ i, 1 ≤ i ≤ numPages →
    ∃ image bytes text,
      convert sv doc i = Some (image, bytes) ∧ image ≠ p ∧ recognize sv bytes = Some text.

(** [ocrText] after those iterations. *)
Definition ocr_text (pages : list (string * jsstring)) : jsstring :=
  concat (List.map (λ pg, pg.2 ++ [LF]) pages).

(* ================================================================== *)
(** ** Vocabulary of the statements *)
(* ================================================================== *)

(** The syntax characters of patterns. A heading or boundary that holds
    none of them stands for itself when it is spliced into the pattern
    source; [lit] is the pattern it contributes. *)
Definition syntax_characters : jsstring := js "^$\.*+?()[]{}|".

Definition plain (s : jsstring) : bool :=
  forallb (λ ch, negb (memN ch syntax_characters)) s.

(** No line terminator in a string. *)
Definition single_line (s : jsstring) : Prop :=
  Forall (λ ch, is_LineTerminator ch = false) s.

(** A trimmed string: [trim] leaves it as it is. *)
Definition trimmed (s : jsstring) : Prop := trim s = s.

(** [null] or a non-empty trimmed string. *)
Definition null_or_text (v : option jsstring) : Prop :=
  match v with
  | None => True
  | Some s => s ≠ [] ∧ trimmed s
  end.

Section Vocabulary.
Context `{CaseTables}.

(** [ci_strip p s]: what is left of [s] after a prefix that matches
    the literal [p] under the [i] flag. *)
Fixpoint ci_strip (p s : jsstring) : option jsstring :=
  match p with
  | [] => Some s
  | a :: p' =>
      match s with
      | b :: s' => if ci_eqb a b then ci_strip p' s' else None
      | [] => None
      end
  end.

Definition ci_prefix (p s : jsstring) : bool := bool_decide (is_Some (ci_strip p s)).

(** The literal occurs somewhere in the text, in any letter case. *)
Fixpoint heading_occurs (heading text : jsstring) : bool :=
  ci_prefix heading text ||
  match text with
  | [] => false
  | _ :: text' => heading_occurs heading text'
  end.

(** A boundary line starts here: a line feed, then one of the boundary
    literals. *)
Definition boundary_at (bs : list jsstring) (s : jsstring) : bool :=
  existsb (λ b, ci_prefix (LF :: b) s) bs.

(** What the lookahead [(?=\nB1|...|$)] accepts. *)
Definition boundary_here (bs : list jsstring) (s : jsstring) : bool :=
  match bs with
  | [] => true
  | _ :: _ => boundary_at bs s || bool_decide (s = [])
  end.

(** What the lookahead [(?=\n[A-Z][a-z]|$)] accepts: a line feed and
    two code units in the canonicalized ranges, or the end. *)
Definition default_here (s : jsstring) : bool :=
  match s with
  | [] => true
  | a :: b :: c :: _ =>
      ci_eqb LF a && set_matches (char_range 65 90) b
                  && set_matches (char_range 97 122) c
  | _ => false
  end.

(** What the spec's wording of the default boundary describes: a line
    that starts with an upper-case letter followed by a lower-case
    one. *)
Definition capitalized_line_here (s : jsstring) : bool :=
  match s with
  | a :: b :: c :: _ =>
      N.eqb a LF && memN b (char_range 65 90) && memN c (char_range 97 122)
  | _ => false
  end.

(** The run [\s*[:\n]+\s*] is made of these. *)
Definition is_separator (ch : N) : bool :=
  class_matches WhiteSpaceClass ch || class_matches (Bracket [COLON; LF]) ch.

(** The retained lines of the late-policy filter. *)
Definition retained (text : jsstring) : list jsstring :=
  List.filter mentions_late_or_penalty (split LF text).

End Vocabulary.

(** The keys of the catalog, in order. *)
Definition catalog_keys : list string :=
  ["Late Policy"; "Grading Policy"; "Grading Weights"]%string.

(** The invariant of the result as the spec words it: the three keys once
    each, every value [null] or a non-empty trimmed string. *)
Definition result_invariant (o : JSObject) : Prop :=
  o.*1 = catalog_keys ∧ Forall null_or_text o.*2.

Section ClaimsAsWorded.
Context `{CaseTables}.

(** The boundary property as the spec words it: whenever the pattern
    with boundaries matches at index [length pre], on the heading
    occurrence [hd], and the first boundary line after that heading
    starts where [tail] starts, what the match leaves unread holds that
    whole boundary line (the capture ends before it). *)
Definition boundary_excluded (text heading : jsstring) (bs : list jsstring) : Prop :=
  ∀ z pre hd between tail,
    exec (section_pattern heading (boundary_look bs)) text = Some (length pre, z) →
    text = pre ++ hd ++ between ++ tail →
    length hd = length heading →
    boundary_at bs tail = true →
    (∀ j, j < length between → boundary_at bs (drop j (between ++ tail)) = false) →
    length tail ≤ length (rest z).

(** The default boundary as the spec words it: the body returned by
    [extractSection] stops at the end of the text or where a line
    begins with an upper-case letter followed by a lower-case one. *)
Definition ends_at_capitalized_line (text heading : jsstring) : Prop :=
  ∀ i z,
    exec (section_pattern heading default_look) text = Some (i, z) →
    rest z = [] ∨ capitalized_line_here (rest z) = true.


End ClaimsAsWorded.

(* ================================================================== *)
(** ** Sample inputs *)
(* ================================================================== *)

(** Scenario A of the spec. *)
Definition scenario_A : jsstring :=
  js "Homework: Late submissions incur a 10% penalty per day." ++ LF :: js "Attendance: ...".

(** The same policy with the body on the line after the heading. *)
Definition scenario_A_next_line : jsstring :=
  js "Homework:" ++ LF :: js "Late submissions incur a 10% penalty per day."
    ++ LF :: js "Attendance: ...".

(** A homework section that says nothing of late work. *)
Definition homework_without_late : jsstring :=
  js "Homework:" ++ LF :: js "Read chapter 1".

(** A grading scale left empty: the boundary line follows the heading. *)
Definition empty_grading_scale : jsstring :=
  js "Grading Scale:" ++ LF :: js "Attendance: mandatory".

(** Scenario B of the spec. *)
Definition scenario_B : jsstring :=
  js "Grading Scale: A=90-100, B=80-89" ++ LF :: js "Attendance: mandatory".

(** A body followed by a line that starts in lower case. *)
Definition lower_case_next_line : jsstring :=
  js "Homework:" ++ LF :: js "late fee" ++ LF :: js "more info".

(** A scanned two-page syllabus: no text layer, so pdf-parse gives the
    empty text; the pages are rendered and read one by one. *)
Definition upload : UploadedFile :=
  {| originalname := js "syllabus.pdf"; path := "tmp/3f9a" |}.

Definition scanned_doc : Buffer := [Byte.x25; Byte.x50; Byte.x44; Byte.x46].

Definition scanned_services : Services :=
  {| pdfParse := λ doc, Some ([], 2);
     convert := λ doc i,
       match i with
       | 1 => Some ("tmp/page.1.png"%string, [Byte.x01])
       | 2 => Some ("tmp/page.2.png"%string, [Byte.x02])
       | _ => None
       end;
     recognize := λ bytes,
       match bytes with
       | [Byte.x01] => Some (js "Homework:" ++ LF :: js "Late work loses 10% per day.")
       | [Byte.x02] => Some (js "Attendance: mandatory")
       | _ => None
       end |}.

(** The same document when the recognition engine fails. *)
Definition unreadable_services : Services :=
  {| pdfParse := pdfParse scanned_services;
     convert := convert scanned_services;
     recognize := λ bytes, None |}.

(** A file pdf-parse rejects. *)
Definition corrupt_services : Services :=
  {| pdfParse := λ doc, None;
     convert := λ doc i, None;
     recognize := λ bytes, None |}.

(** A text-native document: scenario B. *)
Definition native_services : Services :=
  {| pdfParse := λ doc, Some (scenario_B, 1);
     convert := λ doc i, None;
     recognize := λ bytes, None |}.

Definition storage : World :=
  {| files := {[ "tmp/3f9a"%string := scanned_doc ]}; trace := [] |}.

(** A grading scale followed by a line that is no boundary. *)
Definition scale_then_other_line : jsstring :=
  js "Grading Scale:" ++ LF :: js "A=90" ++ LF :: js "Bonus work".

(** Two lines that both mention late work. *)
Definition two_late_lines : jsstring :=
  js "Late work: -10% per day" ++ LF :: js "No PENALTY in week 1".

(** The converter, given [doc], never saves an image at path [q]. *)
Definition convert_avoids (sv : Services) (doc : Buffer) (q : string) : Prop :=
  ∀ i image bytes, convert sv doc i = Some (image, bytes) → image ≠ q.

(** The images and texts of the two pages of the scanned document. *)
Definition scanned_pages : list (string * jsstring) :=
  [ ("tmp/page.1.png"%string, js "Homework:" ++ LF :: js "Late work loses 10% per day.");
    ("tmp/page.2.png"%string, js "Attendance: mandatory") ].

(** A scan whose policy stands on the last line of the last page. *)
Definition policy_on_last_line : list (string * jsstring) :=
  [ ("tmp/page.1.png"%string, js "Homework:" ++ LF :: js "Late work loses 10% per day.") ].

(* ================================================================== *)
(** ** Lemmas on strings *)
(* ================================================================== *)

Lemma drop_spaces_suffix s : ∃ pre, s = pre ++ drop_spaces s.
Proof.
  induction s as [|c s [pre IH]]; simpl.
  - by exists [].
  - destruct (is_space c).
    + exists (c :: pre). simpl. by f_equal.
    + by exists [].
Qed.

Lemma drop_spaces_head s :
  match drop_spaces s with
  | [] => True
  | c :: _ => is_space c = false
  end.
Proof.
  induction s as [|c s IH]; simpl; [done|].
  destruct (is_space c) eqn:E; [done|]. exact E.
Qed.

Lemma drop_spaces_id c s : is_space c = false → drop_spaces (c :: s) = c :: s.
Proof. intros E. simpl. by rewrite E. Qed.

(** [trim s] is a piece of [s]. *)
Lemma trim_infix s : ∃ a b, s = a ++ trim s ++ b.
Proof.
  unfold trim.
  destruct (drop_spaces_suffix s) as [a Ha].
  destruct (drop_spaces_suffix (rev (drop_spaces s))) as [b Hb].
  exists a, (rev b).
  rewrite <- rev_app_distr, <- Hb, rev_involutive. exact Ha.
Qed.

Lemma trim_Forall (P : N → Prop) s : Forall P s → Forall P (trim s).
Proof.
  intros HP. destruct (trim_infix s) as (a & b & E).
  rewrite E in HP. apply Forall_app in HP as [_ HP].
  by apply Forall_app in HP as [HP _].
Qed.

(** The result of [trim] is trimmed. *)
Lemma trim_trim s : trim (trim s) = trim s.
Proof.
  unfold trim.
  set (u := drop_spaces s).
  pose proof (drop_spaces_head s) as Hu. fold u in Hu.
  set (v := drop_spaces (rev u)).
  pose proof (drop_spaces_head (rev u)) as Hv. fold v in Hv.
  destruct (drop_spaces_suffix (rev u)) as [b Hb]. fold v in Hb.
  assert (E1 : drop_spaces (rev v) = rev v).
  { destruct (rev v) as [|c t] eqn:Ev; [done|].
    apply drop_spaces_id.
    assert (Eu : u = rev v ++ rev b).
    { rewrite <- rev_app_distr, <- Hb. by rewrite rev_involutive. }
    rewrite Ev in Eu. rewrite Eu in Hu. exact Hu. }
  rewrite E1, rev_involutive.
  assert (E2 : drop_spaces v = v).
  { destruct v as [|c t]; [done|]. by apply drop_spaces_id. }
  by rewrite E2.
Qed.

Lemma split_nonempty sep s : split sep s ≠ [].
Proof.
  destruct s as [|c s]; simpl; [done|].
  destruct (N.eqb c sep); [done|]. by destruct (split sep s).
Qed.

Lemma split_no_sep sep s : Forall (λ l, sep ∉ l) (split sep s).
Proof.
  induction s as [|c s IH]; simpl.
  - repeat constructor. by intros ?%elem_of_nil.
  - destruct (N.eqb_spec c sep) as [->|Hne].
    + constructor; [by intros ?%elem_of_nil | done].
    + destruct (split sep s) as [|l ls]; inversion IH; subst.
      * repeat constructor. intros ?%list_elem_of_singleton. congruence.
      * constructor; [|done].
        intros [?|?]%elem_of_cons; [congruence|done].
Qed.

Lemma split_single sep s : sep ∉ s → split sep s = [s].
Proof.
  induction s as [|c s IH]; intros Hs; simpl; [done|].
  apply not_elem_of_cons in Hs as [Hc Hs].
  destruct (N.eqb_spec c sep) as [->|_]; [done|].
  by rewrite (IH Hs).
Qed.

Lemma split_app_sep sep l s :
  sep ∉ l → split sep (l ++ sep :: s) = l :: split sep s.
Proof.
  induction l as [|c l IH]; intros Hl; simpl.
  - by rewrite N.eqb_refl.
  - apply not_elem_of_cons in Hl as [Hc Hl].
    destruct (N.eqb_spec c sep) as [->|_]; [done|].
    by rewrite (IH Hl).
Qed.

(** Splitting what [join] made gives the lines back, when there is at
    least one line and no line holds the separator. *)
Lemma split_join sep ls :
  ls ≠ [] → Forall (λ l, sep ∉ l) ls → split sep (join sep ls) = ls.
Proof.
  induction ls as [|l ls IH]; intros Hne Hall; [done|].
  inversion Hall as [|? ? Hl Hls]; subst.
  destruct ls as [|l' ls].
  - simpl. by apply split_single.
  - change (join sep (l :: l' :: ls)) with (l ++ sep :: join sep (l' :: ls)).
    rewrite split_app_sep by done. f_equal. by apply IH.
Qed.

(** Joining what [split] made gives the string back. *)
Lemma join_split sep s : join sep (split sep s) = s.
Proof.
  induction s as [|c s IH]; simpl; [done|].
  destruct (N.eqb_spec c sep) as [->|Hne].
  - pose proof (split_nonempty sep s).
    destruct (split sep s) as [|l ls] eqn:E; [done|].
    simpl in *. by rewrite IH.
  - destruct (split sep s) as [|l ls] eqn:E.
    + by destruct (split_nonempty sep s).
    + destruct ls; simpl in *; by rewrite <- IH.
Qed.

Lemma filter_sublist {A} (f : A → bool) l : sublist (List.filter f l) l.
Proof.
  induction l as [|a l IH]; simpl; [constructor|].
  destruct (f a); by constructor.
Qed.

Lemma filter_preserves_Forall {A} (P : A → Prop) (f : A → bool) l :
  Forall P l → Forall P (List.filter f l).
Proof.
  induction 1 as [|a l Ha _ IH]; simpl; [constructor|].
  destruct (f a); [by constructor|done].
Qed.

Lemma filter_Forall {A} (f : A → bool) l : Forall (λ a, f a = true) (List.filter f l).
Proof.
  induction l as [|a l IH]; simpl; [constructor|].
  destruct (f a) eqn:E; [by constructor|done].
Qed.

(* ================================================================== *)
(** ** The late-policy filter *)
(* ================================================================== *)

Section FilterLemmas.
Context `{CaseTables}.

Lemma filterLatePolicy_retained text :
  filterLatePolicy text = join LF (retained text).
Proof. reflexivity. Qed.

Lemma retained_no_LF text : Forall (λ l, LF ∉ l) (retained text).
Proof.
  unfold retained.
  apply filter_preserves_Forall, split_no_sep.
Qed.

Lemma retained_join_fixed ls :
  Forall (λ l, LF ∉ l) ls →
  Forall (λ l, mentions_late_or_penalty l = true) ls →
  join LF (retained (join LF ls)) = join LF ls.
Proof.
  intros Hsep Hkeep. destruct ls as [|l ls].
  - unfold retained. simpl. by destruct (mentions_late_or_penalty []).
  - unfold retained. rewrite split_join by done. f_equal.
    clear Hsep. induction Hkeep as [|a l' Ha _ IH]; simpl; [done|].
    by rewrite Ha, IH.
Qed.

Lemma filterLatePolicy_idempotent text :
  filterLatePolicy (filterLatePolicy text) = filterLatePolicy text.
Proof.
  rewrite !filterLatePolicy_retained.
  apply retained_join_fixed; [apply retained_no_LF | apply filter_Forall].
Qed.

(** On one line the filter keeps the line or nothing. *)
Lemma filterLatePolicy_single_line s :
  LF ∉ s → filterLatePolicy s = s ∨ filterLatePolicy s = [].
Proof.
  intros Hs. unfold filterLatePolicy. rewrite split_single by done. simpl.
  destruct (mentions_late_or_penalty s); simpl; auto.
Qed.

End FilterLemmas.

(* ================================================================== *)
(** ** The matcher on the section patterns *)
(* ================================================================== *)

Section MatcherLemmas.
Context `{CaseTables}.

Lemma advance_rest x : advance x (rest x) = x.
Proof. by destruct x. Qed.

Lemma ci_strip_split p s s' :
  ci_strip p s = Some s' → ∃ hd, s = hd ++ s' ∧ length hd = length p.
Proof.
  revert s. induction p as [|a p IH]; intros s Hs; simpl in Hs.
  - exists []. by inversion Hs.
  - destruct s as [|b s]; [done|].
    destruct (ci_eqb a b); [|done].
    destruct (IH _ Hs) as (hd & -> & Hl).
    exists (b :: hd). simpl. by rewrite Hl.
Qed.

(** A literal consumes a prefix that matches it letter by letter. *)
Lemma m_lit p x c :
  m (lit p) x c =
  match ci_strip p (rest x) with
  | Some s => c (advance x s)
  | None => None
  end.
Proof.
  revert x. induction p as [|a p IH]; intros x; simpl.
  - by rewrite advance_rest.
  - destruct (rest x) as [|b s]; [done|].
    destruct (ci_eqb a b); [|done].
    rewrite IH. simpl. by destruct (ci_strip p s).
Qed.

(** Whatever a greedy repetition returns, the continuation returned
    it after a run of matching characters. *)
Lemma repeat_greedy_sound a s k z :
  repeat_greedy a s k = Some z →
  ∃ run s', s = run ++ s' ∧ Forall (λ ch, class_matches a ch = true) run ∧ k s' = Some z.
Proof.
  revert z. induction s as [|ch s IH]; intros z Hz; simpl in Hz.
  - exists [], []. auto.
  - destruct (class_matches a ch) eqn:Ech.
    + destruct (repeat_greedy a s k) as [z'|] eqn:Er.
      * inversion Hz; subst z'.
        destruct (IH _ eq_refl) as (run & s' & -> & Hrun & Hk).
        exists (ch :: run), s'. split_and!; [done|by constructor|done].
      * exists [], (ch :: s). auto.
    + exists [], (ch :: s). auto.
Qed.

(** A lazy repetition returns what the continuation gives at the
    first place where it accepts. *)
Lemma repeat_lazy_sound a s k z :
  repeat_lazy a s k = Some z →
  ∃ run s', s = run ++ s' ∧ Forall (λ ch, class_matches a ch = true) run ∧
            k s' = Some z ∧
            ∀ j, j < length run → k (drop j s) = None.
Proof.
  revert z. induction s as [|ch s IH]; intros z Hz; simpl in Hz.
  - destruct (k []) eqn:Ek; [|done]. inversion Hz; subst.
    exists [], []. split_and!; [done|constructor|done|].
    intros j Hj. simpl in Hj. lia.
  - destruct (k (ch :: s)) as [z'|] eqn:Ek.
    + inversion Hz; subst.
      exists [], (ch :: s). split_and!; [done|constructor|done|].
      intros j Hj. simpl in Hj. lia.
    + destruct (class_matches a ch) eqn:Ech; [|done].
      destruct (IH _ Hz) as (run & s' & -> & Hrun & Hk & Hmin).
      exists (ch :: run), s'. split_and!; [done|by constructor|done|].
      intros [|j] Hj; simpl; [done|]. apply Hmin. simpl in Hj. lia.
Qed.

(** The two lookaheads of the source are tests on the input ahead. *)
Lemma m_default_look x c :
  m (Lookahead default_look) x c =
  if default_here (rest x) then c x else None.
Proof.
  unfold default_look, default_here.
  generalize (char_range 65 90) (char_range 97 122). intros A B.
  destruct x as [s cap]. simpl.
  destruct s as [|a [|b [|d s]]]; simpl; try done.
  - by destruct (ci_eqb LF a).
  - destruct (ci_eqb LF a); simpl; [|done].
    by destruct (set_matches A b).
  - destruct (ci_eqb LF a); simpl; [|done].
    destruct (set_matches A b); simpl; [|done].
    by destruct (set_matches B d).
Qed.

Lemma ci_prefix_None p s : ci_strip p s = None → ci_prefix p s = false.
Proof.
  intros E. unfold ci_prefix. rewrite E.
  apply bool_decide_eq_false. by intros [? ?].
Qed.

Lemma ci_prefix_Some p s s' : ci_strip p s = Some s' → ci_prefix p s = true.
Proof.
  intros E. unfold ci_prefix. rewrite E.
  apply bool_decide_eq_true. eauto.
Qed.

Lemma m_boundary_alternatives bs x :
  match m (foldr (λ b r, Disj (Seq (Char LF) (lit b)) r) AssertEnd bs) x Some with
  | Some y => cap1 y = cap1 x ∧ boundary_at bs (rest x) || bool_decide (rest x = []) = true
  | None => boundary_at bs (rest x) || bool_decide (rest x = []) = false
  end.
Proof.
  destruct x as [s cap]. cbn [rest cap1].
  induction bs as [|b bs IH].
  - simpl. destruct s; simpl; auto.
  - cbn [foldr]. unfold boundary_at. cbn [existsb]. fold (boundary_at bs s).
    destruct (ci_strip (LF :: b) s) as [s'|] eqn:Es.
    + rewrite (ci_prefix_Some _ _ _ Es). cbn [orb].
      cbn [ci_strip] in Es.
      destruct s as [|a s0]; [done|].
      destruct (ci_eqb LF a) eqn:Ea; [|done].
      cbn [m rest]. rewrite Ea, m_lit. cbn [advance rest]. by rewrite Es.
    + rewrite (ci_prefix_None _ _ Es). cbn [orb].
      cbn [ci_strip] in Es.
      destruct s as [|a s0]; [exact IH|].
      destruct (ci_eqb LF a) eqn:Ea.
      * cbn [m rest]. rewrite Ea, m_lit. cbn [advance rest]. rewrite Es. exact IH.
      * cbn [m rest]. rewrite Ea. exact IH.
Qed.

Lemma m_boundary_look bs x c :
  m (Lookahead (boundary_look bs)) x c =
  if boundary_here bs (rest x) then c x else None.
Proof.
  destruct bs as [|b bs].
  - simpl. by destruct x.
  - unfold boundary_look, boundary_here.
    change (m (Lookahead ?r) x c) with
      (match m r x Some with
       | Some y => c {| rest := rest x; cap1 := cap1 y |}
       | None => None
       end).
    pose proof (m_boundary_alternatives (b :: bs) x) as Hm.
    destruct (m _ x Some) as [y|].
    + destruct Hm as [-> ->]. by destruct x.
    + by rewrite Hm.
Qed.

Lemma repeat_star_sound a greedy s k z :
  repeat_star a greedy s k = Some z →
  ∃ run s', s = run ++ s' ∧ Forall (λ ch, class_matches a ch = true) run ∧ k s' = Some z.
Proof.
  destruct greedy; simpl; intros Hz.
  - by apply repeat_greedy_sound.
  - destruct (repeat_lazy_sound _ _ _ _ Hz) as (run & s' & ? & ? & ? & _). eauto.
Qed.

(** The capture of the group: what lies between two nested suffixes. *)
Lemma take_between (body tail : jsstring) :
  take (length (body ++ tail) - length tail) (body ++ tail) = body.
Proof.
  rewrite length_app.
  replace (length body + length tail - length tail) with (length body) by lia.
  by rewrite take_app_length.
Qed.

(** The capture stage [(.*?)(?=look)]: the shortest run of characters
    other than line terminators after which the lookahead holds. *)
Lemma capture_stage look (here : jsstring → bool) x z :
  (∀ x c, m (Lookahead look) x c = if here (rest x) then c x else None) →
  m (Seq (Group (Star AnyChar false)) (Lookahead look)) x Some = Some z →
  ∃ body tail,
    rest x = body ++ tail ∧
    Forall (λ ch, is_LineTerminator ch = false) body ∧
    z = {| rest := tail; cap1 := Some body |} ∧
    here tail = true ∧
    ∀ j, j < length body → here (drop j (body ++ tail)) = false.
Proof.
  intros Hlook Hz.
  change (repeat_lazy AnyChar (rest x)
            (λ s, m (Lookahead look)
                    {| rest := s;
                       cap1 := Some (take (length (rest x) - length s) (rest x)) |}
                    Some) = Some z) in Hz.
  apply repeat_lazy_sound in Hz as (body & tail & Ex & Hbody & Hk & Hmin).
  exists body, tail.
  rewrite Hlook in Hk. cbn [rest] in Hk.
  destruct (here tail) eqn:Et; [|done].
  split_and!; [done| |..|done|].
  - eapply Forall_impl; [exact Hbody|]. intros ch Hch. simpl in Hch.
    by apply negb_true_iff.
  - inversion Hk. by rewrite Ex, take_between.
  - intros j Hj. specialize (Hmin j Hj).
    rewrite Hlook in Hmin. cbn [rest] in Hmin. rewrite <- Ex.
    by destruct (here (drop j (rest x))).
Qed.

(** The shape of every match of a section pattern, started at [s]:
    the heading, a non-empty run of separators, the captured body on
    one line, and then the place where the lookahead holds, which is
    the first such place from the start of the body on. *)
Lemma section_match_shape heading look (here : jsstring → bool) s z :
  (∀ x c, m (Lookahead look) x c = if here (rest x) then c x else None) →
  m (section_pattern heading look) {| rest := s; cap1 := None |} Some = Some z →
  ∃ seps body tail,
    ci_strip heading s = Some (seps ++ body ++ tail) ∧
    seps ≠ [] ∧
    Forall (λ ch, is_separator ch = true) seps ∧
    Forall (λ ch, is_LineTerminator ch = false) body ∧
    z = {| rest := tail; cap1 := Some body |} ∧
    here tail = true ∧
    ∀ j, j < length body → here (drop j (body ++ tail)) = false.
Proof.
  intros Hlook Hz. unfold section_pattern in Hz.
  set (stage5 := Seq (Group (Star AnyChar false)) (Lookahead look)) in Hz.
  change (m (lit heading) {| rest := s; cap1 := None |}
            (λ y, m (Seq (Star WhiteSpaceClass true)
                    (Seq (Plus (Bracket [COLON; LF]) true)
                      (Seq (Star WhiteSpaceClass true) stage5))) y Some) = Some z) in Hz.
  rewrite m_lit in Hz. cbn [rest] in Hz.
  destruct (ci_strip heading s) as [s1|] eqn:Eh; [|done].
  change (repeat_star WhiteSpaceClass true s1
            (λ s2, m (Seq (Plus (Bracket [COLON; LF]) true)
                      (Seq (Star WhiteSpaceClass true) stage5))
                     {| rest := s2; cap1 := None |} Some) = Some z) in Hz.
  apply repeat_star_sound in Hz as (run1 & s2 & -> & Hrun1 & Hz).
  destruct s2 as [|ch s3]; [done|].
  change ((if class_matches (Bracket [COLON; LF]) ch
           then repeat_star (Bracket [COLON; LF]) true s3
                  (λ s4, repeat_star WhiteSpaceClass true s4
                           (λ s5, m stage5 {| rest := s5; cap1 := None |} Some))
           else None) = Some z) in Hz.
  destruct (class_matches (Bracket [COLON; LF]) ch) eqn:Ech; [|done].
  apply repeat_star_sound in Hz as (run2 & s4 & -> & Hrun2 & Hz).
  apply repeat_star_sound in Hz as (run3 & s5 & -> & Hrun3 & Hz).
  unfold stage5 in Hz.
  destruct (capture_stage _ _ _ _ Hlook Hz) as (body & tail & Ex & Hb & -> & Ht & Hmin).
  cbn [rest] in Ex. subst s5.
  exists (run1 ++ ch :: run2 ++ run3), body, tail.
  split_and!; try done.
  - f_equal. rewrite <- !app_assoc. simpl. by rewrite <- !app_assoc.
  - by destruct run1.
  - unfold is_separator.
    apply Forall_app. split.
    { eapply Forall_impl; [exact Hrun1|]. intros c0 ->. done. }
    constructor. { rewrite Ech. apply orb_true_r. }
    apply Forall_app. split.
    { eapply Forall_impl; [exact Hrun2|]. intros c0 ->. apply orb_true_r. }
    eapply Forall_impl; [exact Hrun3|]. intros c0 ->. done.
Qed.

(** [scan] returns the first start at which the pattern matches. *)
Lemma scan_sound r s i j z :
  scan r s i = Some (j, z) →
  ∃ pre s', s = pre ++ s' ∧ j = i + length pre ∧
            m r {| rest := s'; cap1 := None |} Some = Some z.
Proof.
  revert i. induction s as [|ch s IH]; intros i Hs; simpl in Hs.
  - destruct (m r _ Some) as [y|] eqn:Em; [|done].
    inversion Hs; subst. exists [], []. simpl. split_and!; [done|lia|done].
  - destruct (m r _ Some) as [y|] eqn:Em.
    + inversion Hs; subst. exists [], (ch :: s). simpl. split_and!; [done|lia|done].
    + destruct (IH _ Hs) as (pre & s' & -> & -> & Hm).
      exists (ch :: pre), s'. simpl. split_and!; [done|lia|done].
Qed.

Lemma scan_none r s i :
  (∀ pre s', s = pre ++ s' → m r {| rest := s'; cap1 := None |} Some = None) →
  scan r s i = None.
Proof.
  revert i. induction s as [|ch s IH]; intros i Hall; simpl.
  - by rewrite (Hall [] []).
  - rewrite (Hall [] (ch :: s)) by done.
    apply IH. intros pre s' ->. by apply (Hall (ch :: pre)).
Qed.

End MatcherLemmas.

(* ================================================================== *)
(** ** The three locators *)
(* ================================================================== *)

Section LocatorLemmas.
Context `{CaseTables}.

Lemma single_line_no_LF s : single_line s → LF ∉ s.
Proof.
  intros Hs Hin. unfold single_line in Hs.
  rewrite Forall_forall in Hs. specialize (Hs _ Hin). done.
Qed.

(** The shape of a successful [exec] of a section pattern. *)
Lemma exec_shape heading look (here : jsstring → bool) text i z :
  (∀ x c, m (Lookahead look) x c = if here (rest x) then c x else None) →
  exec (section_pattern heading look) text = Some (i, z) →
  ∃ pre hd seps body tail,
    text = pre ++ hd ++ seps ++ body ++ tail ∧
    length pre = i ∧ length hd = length heading ∧
    ci_strip heading (hd ++ seps ++ body ++ tail) = Some (seps ++ body ++ tail) ∧
    seps ≠ [] ∧ Forall (λ ch, is_separator ch = true) seps ∧
    single_line body ∧
    z = {| rest := tail; cap1 := Some body |} ∧
    here tail = true ∧
    ∀ j, j < length body → here (drop j (body ++ tail)) = false.
Proof.
  intros Hlook Hex. unfold exec in Hex.
  apply scan_sound in Hex as (pre & s' & -> & -> & Hm).
  apply (section_match_shape _ _ _ _ _ Hlook) in Hm
    as (seps & body & tail & Hs & Hne & Hseps & Hbody & -> & Ht & Hmin).
  destruct (ci_strip_split _ _ _ Hs) as (hd & -> & Hl).
  exists pre, hd, seps, body, tail. split_and!; try done.
Qed.

Lemma trimmed_group1_Some r v :
  trimmed_group1 r = Some v → ∃ i z, r = Some (i, z) ∧ v = trim (default [] (cap1 z)).
Proof.
  destruct r as [[i z]|]; simpl; [|done]. intros [= <-]. eauto.
Qed.

(** What a locator returns is the trim of a one-line body. *)
Lemma located_text heading look (here : jsstring → bool) text v :
  (∀ x c, m (Lookahead look) x c = if here (rest x) then c x else None) →
  trimmed_group1 (exec (section_pattern heading look) text) = Some v →
  ∃ body, v = trim body ∧ single_line body.
Proof.
  intros Hlook Hv.
  apply trimmed_group1_Some in Hv as (i & z & Hex & ->).
  apply (exec_shape _ _ _ _ _ _ Hlook) in Hex
    as (pre & hd & seps & body & tail & _ & _ & _ & _ & _ & _ & Hb & -> & _).
  exists body. done.
Qed.

Lemma located_single_line heading look (here : jsstring → bool) text v :
  (∀ x c, m (Lookahead look) x c = if here (rest x) then c x else None) →
  trimmed_group1 (exec (section_pattern heading look) text) = Some v →
  single_line v ∧ trimmed v.
Proof.
  intros Hlook Hv.
  destruct (located_text _ _ _ _ _ Hlook Hv) as (body & -> & Hb).
  split; [by apply trim_Forall | apply trim_trim].
Qed.

Lemma extractSection_single_line text heading v :
  extractSection text heading = Some v → single_line v ∧ trimmed v.
Proof. apply located_single_line with (here := default_here), m_default_look. Qed.

Lemma extractSectionWithBoundaries_single_line text heading bs v :
  extractSectionWithBoundaries text heading bs = Some v → single_line v ∧ trimmed v.
Proof. apply located_single_line with (here := boundary_here bs), m_boundary_look. Qed.

(** [extractSectionMultiple] returns [null] or the truthy result of
    [extractSection] on one of the headings. *)
Lemma extractSectionMultiple_result text hs :
  extractSectionMultiple text hs = None ∨
  ∃ heading v, heading ∈ hs ∧ extractSection text heading = Some v ∧ v ≠ [] ∧
               extractSectionMultiple text hs = Some v.
Proof.
  induction hs as [|h hs IH]; simpl; [by left|].
  destruct (extractSection text h) as [[|ch v]|] eqn:E; simpl.
  - destruct IH as [IH|(h' & v' & Hin & ? & ? & ?)]; [by left|].
    right. exists h', v'. split_and!; try done. by right.
  - right. exists h, (ch :: v). split_and!; try done. by left.
  - destruct IH as [IH|(h' & v' & Hin & ? & ? & ?)]; [by left|].
    right. exists h', v'. split_and!; try done. by right.
Qed.

(** The loop with boundaries ends with a falsy value or with the truthy
    result of [extractSectionWithBoundaries] on one of the headings. *)
Lemma boundary_pass_result text hs bs v0 :
  truthy v0 = false →
  truthy (boundary_pass text hs bs v0) = false ∨
  ∃ heading v, heading ∈ hs ∧ extractSectionWithBoundaries text heading bs = Some v ∧
               v ≠ [] ∧ boundary_pass text hs bs v0 = Some v.
Proof.
  revert v0. induction hs as [|h hs IH]; intros v0 Hv0; simpl; [by left|].
  destruct (extractSectionWithBoundaries text h bs) as [[|ch v]|] eqn:E; simpl.
  - destruct (IH (Some []) eq_refl) as [IH'|(h' & v' & Hin & ? & ? & ?)]; [by left|].
    right. exists h', v'. split_and!; try done. by right.
  - right. exists h, (ch :: v). split_and!; try done. by left.
  - destruct (IH None eq_refl) as [IH'|(h' & v' & Hin & ? & ? & ?)]; [by left|].
    right. exists h', v'. split_and!; try done. by right.
Qed.

(** What the loop body stores before the filter: [null], or a
    non-empty trimmed string on one line. *)
Lemma locateSection_result text params :
  match locateSection text params with
  | None => True
  | Some v => v ≠ [] ∧ trimmed v ∧ single_line v
  end.
Proof.
  unfold locateSection.
  assert (Hmult : match extractSectionMultiple text (headings params) with
                  | None => True
                  | Some v => v ≠ [] ∧ trimmed v ∧ single_line v
                  end).
  { destruct (extractSectionMultiple_result text (headings params))
      as [->|(h & v & _ & Hv & Hne & ->)]; [done|].
    apply extractSection_single_line in Hv as [? ?]. done. }
  destruct (boundaries params) as [bs|]; [|exact Hmult].
  destruct (boundary_pass_result text (headings params) bs None eq_refl)
    as [Hf|(h & v & _ & Hv & Hne & Hp)].
  - cbv zeta. by rewrite Hf.
  - cbv zeta. rewrite Hp. destruct v as [|ch v]; [done|]. simpl.
    apply extractSectionWithBoundaries_single_line in Hv as [? ?]. done.
Qed.

Lemma heading_occurs_suffix heading pre s :
  heading_occurs heading (pre ++ s) = false → ci_strip heading s = None.
Proof.
  induction pre as [|ch pre IH]; simpl.
  - intros Ho. destruct (ci_strip heading s) as [s'|] eqn:E; [|done].
    assert (Hp : ci_prefix heading s = true) by by eapply ci_prefix_Some.
    destruct s; simpl in Ho; rewrite Hp in Ho; done.
  - intros Ho. apply orb_false_iff in Ho as [_ Ho]. by apply IH.
Qed.

(** No occurrence of the heading, no match, whatever the lookahead. *)
Lemma exec_no_heading heading look text :
  heading_occurs heading text = false →
  exec (section_pattern heading look) text = None.
Proof.
  intros Ho. apply scan_none. intros pre s' ->.
  unfold section_pattern.
  change (m (Seq (lit heading) ?r) ?x Some) with (m (lit heading) x (λ y, m r y Some)).
  rewrite m_lit. cbn [rest]. by rewrite (heading_occurs_suffix _ _ _ Ho).
Qed.

Lemma boundary_at_nil bs : boundary_at bs [] = false.
Proof.
  unfold boundary_at. induction bs as [|b bs IH]; [done|].
  cbn [existsb]. rewrite IH. by rewrite ci_prefix_None.
Qed.

End LocatorLemmas.

(* ================================================================== *)
(** ** Properties of the locators and of the filter *)
(* ================================================================== *)

Section LocatorProperties.
Context `{CaseTables}.

Lemma extractSectionMultiple_none text hs :
  (∀ heading, heading ∈ hs → extractSection text heading = None) →
  extractSectionMultiple text hs = None.
Proof.
  induction hs as [|h hs IH]; intros Hall; simpl; [done|].
  rewrite (Hall h) by by left. simpl. apply IH. intros h' Hin. apply Hall. by right.
Qed.

Lemma boundary_pass_none text hs bs :
  (∀ heading, heading ∈ hs → extractSectionWithBoundaries text heading bs = None) →
  boundary_pass text hs bs None = None.
Proof.
  induction hs as [|h hs IH]; intros Hall; simpl; [done|].
  rewrite (Hall h) by by left. simpl. apply IH. intros h' Hin. apply Hall. by right.
Qed.

(** C7. Whatever [extractSection], [extractSectionWithBoundaries] or
    [extractSectionMultiple] returns, for headings and boundaries free
    of pattern syntax, holds no newline (and no other line
    terminator): the captured body lies on one line of the text. *)
Theorem section_body_on_one_line text heading bs hs :
  plain heading = true → forallb plain bs = true → forallb plain hs = true →
  (∀ v, extractSection text heading = Some v → (LF ∉ v) ∧ single_line v) ∧
  (∀ v, extractSectionWithBoundaries text heading bs = Some v → (LF ∉ v) ∧ single_line v) ∧
  (∀ v, extractSectionMultiple text hs = Some v → (LF ∉ v) ∧ single_line v).
Proof.
  intros _ _ _. split_and!.
  - intros v Hv. apply extractSection_single_line in Hv as [Hv _].
    split; [exact (single_line_no_LF _ Hv) | done].
  - intros v Hv. apply extractSectionWithBoundaries_single_line in Hv as [Hv _].
    split; [exact (single_line_no_LF _ Hv) | done].
  - intros v Hv.
    destruct (extractSectionMultiple_result text hs) as [E|(h & v' & _ & Hs & _ & E)];
      rewrite E in Hv; [done|]. inversion Hv; subst v'.
    apply extractSection_single_line in Hs as [Hs _].
    split; [exact (single_line_no_LF _ Hs) | done].
Qed.

(** C10. When none of the headings of a catalog entry occurs in the
    text, in any letter case, every locator returns [null]:
    [extractSection] and [extractSectionWithBoundaries] on each
    heading, [extractSectionMultiple] on the list, and the loop body of
    the handler with or without boundaries. Headings and boundaries
    are free of pattern syntax, so that every pattern compiles. The
    locators are total functions: there is no other outcome. *)
Theorem no_heading_no_section text params :
  forallb plain (headings params) = true →
  forallb plain (default [] (boundaries params)) = true →
  (∀ heading, heading ∈ headings params → heading_occurs heading text = false) →
  (∀ heading, heading ∈ headings params →
     extractSection text heading = None ∧
     ∀ bs, forallb plain bs = true →
           extractSectionWithBoundaries text heading bs = None) ∧
  extractSectionMultiple text (headings params) = None ∧
  locateSection text params = None.
Proof.
  intros _ Hplain Hno.
  assert (H1 : ∀ heading, heading ∈ headings params →
               extractSection text heading = None ∧
               ∀ bs, forallb plain bs = true →
                     extractSectionWithBoundaries text heading bs = None).
  { intros h Hin. specialize (Hno h Hin).
    unfold extractSection, extractSectionWithBoundaries.
    split; [|intros bs _]; by rewrite exec_no_heading. }
  assert (H2 : extractSectionMultiple text (headings params) = None).
  { apply extractSectionMultiple_none. intros h Hin. by apply H1. }
  split_and!; [exact H1 | exact H2 |].
  unfold locateSection. destruct (boundaries params) as [bs|]; [|exact H2].
  cbn [default] in Hplain.
  rewrite boundary_pass_none; [exact H2|]. intros h Hin. by apply H1.
Qed.

(** What [extractSectionWithBoundaries] does from the start of the
    captured body on. When it returns a string,
    the text splits into what precedes the match, the heading, a
    non-empty run of separators, the captured body and a tail; the
    result is the trimmed body, which lies on one line. No boundary
    line starts inside the body, and if a boundary line starts anywhere
    from the start of the body on, the tail starts with one: the body
    stops right before the earliest of them and excludes it and all
    that follows. Otherwise the tail is empty. *)
Theorem boundary_ends_body text heading bs v :
  plain heading = true → forallb plain bs = true → bs ≠ [] →
  extractSectionWithBoundaries text heading bs = Some v →
  ∃ pre hd seps body tail,
    text = pre ++ hd ++ seps ++ body ++ tail ∧
    exec (section_pattern heading (boundary_look bs)) text =
      Some (length pre, {| rest := tail; cap1 := Some body |}) ∧
    length hd = length heading ∧
    seps ≠ [] ∧ Forall (λ ch, is_separator ch = true) seps ∧
    v = trim body ∧ single_line body ∧
    (tail = [] ∨ boundary_at bs tail = true) ∧
    (∀ j, boundary_at bs (drop j (body ++ tail)) = true → length body ≤ j) ∧
    ((∃ j, boundary_at bs (drop j (body ++ tail)) = true) → boundary_at bs tail = true).
Proof.
  intros _ _ Hbs Hv. unfold extractSectionWithBoundaries in Hv.
  apply trimmed_group1_Some in Hv as (i & z & Hex & ->).
  pose proof Hex as Hex'.
  apply (exec_shape _ _ _ _ _ _ (m_boundary_look bs)) in Hex
    as (pre & hd & seps & body & tail & Ht & Hi & Hl & _ & Hne & Hseps & Hb & -> & Hhere & Hmin).
  subst i. exists pre, hd, seps, body, tail.
  assert (Hhere_eq : ∀ s, boundary_here bs s = boundary_at bs s || bool_decide (s = [])).
  { intros s. by destruct bs. }
  assert (Htail : tail = [] ∨ boundary_at bs tail = true).
  { rewrite Hhere_eq in Hhere. apply orb_true_iff in Hhere as [?|Hn]; [by right|].
    left. by apply bool_decide_eq_true in Hn. }
  assert (Hinside : ∀ j, boundary_at bs (drop j (body ++ tail)) = true → length body ≤ j).
  { intros j Hj. destruct (decide (j < length body)) as [Hlt|]; [|lia].
    specialize (Hmin j Hlt). rewrite Hhere_eq in Hmin.
    apply orb_false_iff in Hmin as [Hmin _]. congruence. }
  split_and!; try done.
  intros [j Hj]. destruct Htail as [->|]; [|done].
  specialize (Hinside j Hj). rewrite app_nil_r in Hj.
  rewrite drop_ge in Hj by done. by rewrite boundary_at_nil in Hj.
Qed.

(** What [extractSection] does without boundaries: the body stops at the
    first place, from its start on, where the text ends or a line feed
    is followed by two code units of the ranges [A-Z] and [a-z] as the
    [i] flag reads them. *)
Lemma default_look_ends_body text heading v :
  extractSection text heading = Some v →
  ∃ pre hd seps body tail,
    text = pre ++ hd ++ seps ++ body ++ tail ∧
    length hd = length heading ∧
    v = trim body ∧ single_line body ∧
    default_here tail = true ∧
    ∀ j, j < length body → default_here (drop j (body ++ tail)) = false.
Proof.
  intros Hv. unfold extractSection in Hv.
  apply trimmed_group1_Some in Hv as (i & z & Hex & ->).
  apply (exec_shape _ _ _ _ _ _ m_default_look) in Hex
    as (pre & hd & seps & body & tail & Ht & _ & Hl & _ & _ & _ & Hb & -> & Hhere & Hmin).
  exists pre, hd, seps, body, tail. done.
Qed.

(** C9. The output of the late-policy filter is the join of a list of
    lines that is a sublist of the lines of the input (same lines, same
    relative order); each of them, in lower case, includes ["late"] or
    ["penalty"]; when a line is retained the lines of the output are
    exactly the retained ones; and filtering twice gives what filtering
    once gives. *)
Theorem filterLatePolicy_spec text :
  ∃ kept,
    filterLatePolicy text = join LF kept ∧
    sublist kept (split LF text) ∧
    Forall (λ line, includes (toLowerCase line) (js "late") = true ∨
                    includes (toLowerCase line) (js "penalty") = true) kept ∧
    (kept ≠ [] → split LF (filterLatePolicy text) = kept) ∧
    filterLatePolicy (filterLatePolicy text) = filterLatePolicy text.
Proof.
  exists (retained text). split_and!.
  - reflexivity.
  - apply filter_sublist.
  - eapply Forall_impl; [apply filter_Forall|].
    intros line Hl. by apply orb_true_iff in Hl.
  - intros Hne. rewrite filterLatePolicy_retained.
    apply split_join; [done | apply retained_no_LF].
  - apply filterLatePolicy_idempotent.
Qed.

Lemma extractedData_entries text :
  extractedData text =
  [ ("Late Policy"%string, sectionValue text "Late Policy" late_policy_params);
    ("Grading Policy"%string, sectionValue text "Grading Policy" grading_policy_params);
    ("Grading Weights"%string, sectionValue text "Grading Weights" grading_weights_params) ].
Proof. reflexivity. Qed.

Lemma sectionValue_unfiltered text section params :
  String.eqb section "Late Policy" = false →
  null_or_text (sectionValue text section params).
Proof.
  intros Hs. unfold sectionValue. rewrite Hs. simpl.
  pose proof (locateSection_result text params) as Hr.
  destruct (locateSection text params) as [v|]; simpl; [|done].
  by destruct Hr as (? & ? & _).
Qed.

Lemma sectionValue_late text params :
  sectionValue text "Late Policy" params = Some [] ∨
  null_or_text (sectionValue text "Late Policy" params).
Proof.
  unfold sectionValue.
  pose proof (locateSection_result text params) as Hr.
  destruct (locateSection text params) as [v|]; simpl; [|by right].
  destruct Hr as (Hne & Htrim & Hline).
  destruct v as [|ch v]; [done|]. simpl.
  destruct (filterLatePolicy_single_line (ch :: v)) as [->| ->].
  - by apply single_line_no_LF.
  - right. done.
  - by left.
Qed.

(** C2, amended. The result has the three catalog keys, once each and
    in catalog order. The values of "Grading Policy" and "Grading
    Weights" are [null] or a non-empty trimmed string. The value of
    "Late Policy" is [null], a non-empty trimmed string, or the empty
    string (the filter kept no line of the section found). *)
Theorem result_shape text :
  ∃ late policy weights,
    extractedData text =
      [ ("Late Policy"%string, late); ("Grading Policy"%string, policy);
        ("Grading Weights"%string, weights) ] ∧
    (extractedData text).*1 = catalog_keys ∧
    (late = Some [] ∨ null_or_text late) ∧
    null_or_text policy ∧ null_or_text weights.
Proof.
  rewrite extractedData_entries. do 3 eexists. split_and!.
  - reflexivity.
  - reflexivity.
  - apply sectionValue_late.
  - by apply sectionValue_unfiltered.
  - by apply sectionValue_unfiltered.
Qed.

End LocatorProperties.

(* ================================================================== *)
(** ** Runs on the sample inputs *)
(* ================================================================== *)

Section Runs.
#[local] Existing Instance ascii_tables.

(** C1. On scenario A the heading ["Homework:"] already holds the
    colon and the pattern asks for one more colon or a newline right
    after it (spaces apart); the text goes on with [" Late ..."], so no
    match is found and "Late Policy" is [null], not the sentence the
    scenario expects. *)
Theorem scenario_A_late_policy_is_null :
  extractSection scenario_A (js "Homework:") = None ∧
  get_property (extractedData scenario_A) "Late Policy" = Some None.
Proof. by vm_compute. Qed.

(** The sentence is found when it starts on the line after the
    heading. *)
Example scenario_A_next_line_late_policy :
  get_property (extractedData scenario_A_next_line) "Late Policy" =
  Some (Some (js "Late submissions incur a 10% penalty per day.")).
Proof. by vm_compute. Qed.

(** With the colon left to the pattern, as the second heading of
    "Grading Policy" does, the body on the heading's line is found. *)
Example scenario_A_heading_without_colon :
  extractSection scenario_A (js "Homework") =
  Some (js "Late submissions incur a 10% penalty per day.").
Proof. by vm_compute. Qed.

Example scenario_B_grading_policy :
  get_property (extractedData scenario_B) "Grading Policy" =
  Some (Some (js "A=90-100, B=80-89")).
Proof. by vm_compute. Qed.

(** C2, as worded, fails: a homework section without a line on late
    work gives the empty string for "Late Policy". *)
Lemma empty_late_policy :
  get_property (extractedData homework_without_late) "Late Policy" = Some (Some []) ∧
  ¬ result_invariant (extractedData homework_without_late).
Proof.
  split; [by vm_compute|].
  intros [_ Hvals].
  assert (E : (extractedData homework_without_late).*2 = [Some []; None; None])
    by by vm_compute.
  rewrite E in Hvals. inversion Hvals as [|? ? Hv _]; subst.
  by destruct Hv as [Hv _].
Qed.

(** C3. The pattern with boundaries is meant to stop the body before a
    boundary line. When the boundary line comes right after the heading
    (the section is empty), the separators [\s*[:\n]+\s*] take its
    line feed before the lookahead is tried, and the boundary line
    itself is returned: on ["Grading Scale:\nAttendance: mandatory"] the
    result is ["Attendance: mandatory"], the line of the next section,
    and the property that the result excludes the first boundary line
    after the heading fails. *)
Lemma boundary_line_returned :
  extractSectionWithBoundaries empty_grading_scale (js "Grading Scale:")
    [js "Attendance"; js "Course Policies"] = Some (js "Attendance: mandatory") ∧
  ¬ boundary_excluded empty_grading_scale (js "Grading Scale:")
      [js "Attendance"; js "Course Policies"].
Proof.
  split; [by vm_compute|].
  intros Hc.
  specialize (Hc {| rest := []; cap1 := Some (js "Attendance: mandatory") |}
                 [] (js "Grading Scale:") [] (LF :: js "Attendance: mandatory")).
  assert (Hle : length (LF :: js "Attendance: mandatory") ≤ 0).
  { apply Hc; try by vm_compute. intros j Hj. simpl in Hj. lia. }
  simpl in Hle. lia.
Qed.

(** C8. The default lookahead is compiled with the [i] flag like the
    rest of the pattern, so [[A-Z][a-z]] accepts any two letters: the
    body stops before a line that starts in lower case, which is
    neither a capitalized line nor the end of the text. *)
Theorem body_stops_at_lower_case_line :
  extractSection lower_case_next_line (js "Homework:") = Some (js "late fee") ∧
  exec (section_pattern (js "Homework:") default_look) lower_case_next_line =
    Some (0, {| rest := LF :: js "more info"; cap1 := Some (js "late fee") |}) ∧
  capitalized_line_here (LF :: js "more info") = false ∧
  ¬ ends_at_capitalized_line lower_case_next_line (js "Homework:").
Proof.
  split_and!; try by vm_compute.
  intros Hc.
  destruct (Hc 0 {| rest := LF :: js "more info"; cap1 := Some (js "late fee") |})
    as [Hnil|Hcap]; [by vm_compute|done|].
  by vm_compute in Hcap.
Qed.

Lemma section_body_on_one_line_witness :
  LF ∉ js "Late submissions incur a 10% penalty per day.".
Proof.
  refine (proj1 (proj1 (section_body_on_one_line scenario_A_next_line
            (js "Homework:") [js "Attendance"] [js "Homework:"] _ _ _) _ _)).
  - reflexivity.
  - reflexivity.
  - reflexivity.
  - vm_compute. reflexivity.
Defined.

Lemma no_heading_no_section_witness :
  locateSection scenario_A grading_weights_params = None.
Proof.
  refine (proj2 (proj2 (no_heading_no_section scenario_A grading_weights_params _ _ _))).
  - reflexivity.
  - reflexivity.
  - intros heading Hin. simpl in Hin.
    repeat (apply elem_of_cons in Hin as [->|Hin]; [by vm_compute|]).
    by apply elem_of_nil in Hin.
Defined.

Lemma boundary_ends_body_witness :
  ∃ pre hd seps body tail,
    scenario_B = pre ++ hd ++ seps ++ body ++ tail ∧
    exec (section_pattern (js "Grading Scale") (boundary_look [js "Attendance"; js "Course Policies"])) scenario_B =
      Some (length pre, {| rest := tail; cap1 := Some body |}) ∧
    length hd = length (js "Grading Scale") ∧
    seps ≠ [] ∧ Forall (λ ch, is_separator ch = true) seps ∧
    js "A=90-100, B=80-89" = trim body ∧ single_line body ∧
    (tail = [] ∨ boundary_at [js "Attendance"; js "Course Policies"] tail = true) ∧
    (∀ j, boundary_at [js "Attendance"; js "Course Policies"] (drop j (body ++ tail)) = true → length body ≤ j) ∧
    ((∃ j, boundary_at [js "Attendance"; js "Course Policies"] (drop j (body ++ tail)) = true) →
     boundary_at [js "Attendance"; js "Course Policies"] tail = true).
Proof.
  apply (boundary_ends_body scenario_B (js "Grading Scale")
           [js "Attendance"; js "Course Policies"] (js "A=90-100, B=80-89")).
  - reflexivity.
  - reflexivity.
  - discriminate.
  - vm_compute. reflexivity.
Defined.

End Runs.

(* ================================================================== *)
(** ** Acquisition and cleanup *)
(* ================================================================== *)

Section HandlerLemmas.
Context `{CaseTables}.
Variable sv : Services.


Lemma texts_recognized_app t1 t2 :
  texts_recognized (t1 ++ t2) = texts_recognized t1 ++ texts_recognized t2.
Proof. apply omap_app. Qed.


Lemma texts_recognized_ocr_trace i pages :
  texts_recognized (ocr_trace i pages) = pages.*2.
Proof.
  revert i. induction pages as [|[image text] pages IH]; intros i; simpl; [done|].
  f_equal. apply IH.
Qed.

Lemma extractTextFromPDF_ok p w doc data :
  files w !! p = Some doc → pdfParse sv doc = Some data →
  extractTextFromPDF sv p w =
    (Returned data.1,
     {| files := files w; trace := trace w ++ [ReadFile p true; PdfParse true] |}).
Proof.
  intros Hf Hp. unfold extractTextFromPDF, try_catch, mbind, Async_bind, bind,
    readFile, call_pdfParse, log.
  rewrite Hf. simpl. rewrite Hp. simpl. by rewrite <- app_assoc.
Qed.

Lemma extractTextFromPDF_rejected p w doc :
  files w !! p = Some doc → pdfParse sv doc = None →
  extractTextFromPDF sv p w =
    (Thrown,
     {| files := files w; trace := trace w ++ [ReadFile p true; PdfParse false] |}).
Proof.
  intros Hf Hp. unfold extractTextFromPDF, try_catch, mbind, Async_bind, bind,
    readFile, call_pdfParse, log.
  rewrite Hf. simpl. rewrite Hp. simpl. by rewrite <- app_assoc.
Qed.







(** C4. When pdf-parse rejects the upload, the handler answers with
    status 500 and leaves the storage as it was: the temporary file of
    the upload is still there. The [catch] block removes nothing; the
    removal is the last statement of the [try] block, reached on the
    way to a 200 answer only. *)
Theorem upload_left_behind_on_error f w doc :
  originalname f ≠ [] →
  files w !! path f = Some doc →
  pdfParse sv doc = None →
  ∃ w',
    post_extract sv {| file := Some f |} w =
      (Returned (Json 500 (ErrorBody "Internal Server Error")), w') ∧
    files w' = files w ∧
    files w' !! path f = Some doc ∧
    trace w' = trace w ++ [ReadFile (path f) true; PdfParse false].
Proof.
  intros Hname Hf Hp.
  destruct (originalname f) as [|c name] eqn:En; [done|].
  unfold post_extract, try_catch. cbn [file]. rewrite En.
  unfold mbind, Async_bind, bind.
  rewrite (extractTextFromPDF_rejected _ _ _ Hf Hp).
  eexists. split; [reflexivity|]. done.
Qed.

(** The removal on the way to a 200 answer. *)
Lemma upload_removed_on_success f w data w' :
  post_extract sv {| file := Some f |} w = (Returned (Json 200 (DataBody data)), w') →
  files w' !! path f = None.
Proof.
  unfold post_extract, try_catch. cbn [file].
  destruct (originalname f) as [|c name]; [by intros [=]|].
  unfold mbind, Async_bind, bind.
  destruct (extractTextFromPDF sv (path f) w) as [[t|] w1]; [|by intros [=]].
  match goal with
  | |- context [(if ?b then ?x else ?y) w1] =>
      destruct ((if b then x else y) w1) as [[t2|] w2]
  end; [|by intros [=]].
  unfold unlink, log.
  destruct (files w2 !! path f); [|by intros [=]].
  intros [= <- <-]. cbn [files]. apply lookup_delete_eq.
Qed.

(** C5. When the recognition of the first page fails,
    [extractTextWithOCR] throws right after that call: the image the
    converter saved for the page is still on storage and no [unlink]
    was issued for it. The removal follows the recognition in the loop
    body and is skipped with the rest of the loop. *)
Theorem page_image_left_behind_on_error p w doc pdfText remaining image bytes :
  files w !! p = Some doc →
  pdfParse sv doc = Some (pdfText, S remaining) →
  convert sv doc 1 = Some (image, bytes) →
  recognize sv bytes = None →
  ∃ w',
    extractTextWithOCR sv p w = (Thrown, w') ∧
    files w' !! image = Some bytes ∧
    trace w' = trace w ++ [ReadFile p true; PdfParse true;
                           Convert 1 (Some image); Recognize image None].
Proof.
  intros Hf Hp Hc Hr.
  unfold extractTextWithOCR, try_catch, mbind, Async_bind, bind.
  unfold readFile, call_pdfParse, log. cbn [files trace].
  rewrite Hf, Hp. cbn [snd ocr_pages].
  unfold mbind, Async_bind, bind, converter, Tesseract_recognize, log.
  cbn [files trace]. rewrite Hf, Hc. cbn [files trace].
  rewrite lookup_insert_eq, Hr.
  eexists. split; [reflexivity|]. cbn [files trace]. split.
  - apply lookup_insert_eq.
  - by rewrite <- !app_assoc.
Qed.

End HandlerLemmas.

(* ================================================================== *)
(** ** Runs of the handler *)
(* ================================================================== *)

Section HandlerRuns.
#[local] Existing Instance ascii_tables.

(** The scanned document goes through OCR, page 1 then page 2; each
    image is removed before the next page is converted, the upload
    last. *)
Example scanned_run :
  let run := post_extract scanned_services {| file := Some upload |} storage in
  run.1 = Returned (Json 200 (DataBody
            [ ("Late Policy"%string, Some (js "Late work loses 10% per day."));
              ("Grading Policy"%string, None);
              ("Grading Weights"%string, None) ])) ∧
  trace run.2 =
    [ ReadFile "tmp/3f9a" true; PdfParse true;
      ReadFile "tmp/3f9a" true; PdfParse true;
      Convert 1 (Some "tmp/page.1.png"%string);
      Recognize "tmp/page.1.png"
        (Some (js "Homework:" ++ LF :: js "Late work loses 10% per day."));
      Unlink "tmp/page.1.png" true;
      Convert 2 (Some "tmp/page.2.png"%string);
      Recognize "tmp/page.2.png" (Some (js "Attendance: mandatory"));
      Unlink "tmp/page.2.png" true;
      Unlink "tmp/3f9a" true ] ∧
  files run.2 = ∅.
Proof. by vm_compute. Qed.

(** The text-native document never reaches the converter. *)
Example native_run :
  let run := post_extract native_services {| file := Some upload |} storage in
  run.1 = Returned (Json 200 (DataBody
            [ ("Late Policy"%string, None);
              ("Grading Policy"%string, Some (js "A=90-100, B=80-89"));
              ("Grading Weights"%string, None) ])) ∧
  trace run.2 = [ ReadFile "tmp/3f9a" true; PdfParse true; Unlink "tmp/3f9a" true ].
Proof. by vm_compute. Qed.

Example scanned_pages_ok : pages_ok scanned_services scanned_doc (path upload) 2.
Proof.
  intros i Hi.
  destruct i as [|[|[|i]]]; [lia| | |lia].
  - exists "tmp/page.1.png"%string, [Byte.x01],
      (js "Homework:" ++ LF :: js "Late work loses 10% per day.").
    by vm_compute.
  - exists "tmp/page.2.png"%string, [Byte.x02], (js "Attendance: mandatory").
    by vm_compute.
Qed.



Lemma upload_left_behind_on_error_witness :
  ∃ w',
    post_extract corrupt_services {| file := Some upload |} storage =
      (Returned (Json 500 (ErrorBody "Internal Server Error")), w') ∧
    files w' = files storage ∧
    files w' !! path upload = Some scanned_doc ∧
    trace w' = trace storage ++ [ReadFile (path upload) true; PdfParse false].
Proof.
  apply (upload_left_behind_on_error corrupt_services upload storage scanned_doc).
  - discriminate.
  - reflexivity.
  - reflexivity.
Defined.

Lemma page_image_left_behind_on_error_witness :
  ∃ w',
    extractTextWithOCR unreadable_services "tmp/3f9a" storage = (Thrown, w') ∧
    files w' !! "tmp/page.1.png"%string = Some [Byte.x01] ∧
    trace w' = trace storage ++
               [ReadFile "tmp/3f9a" true; PdfParse true;
                Convert 1 (Some "tmp/page.1.png"%string);
                Recognize "tmp/page.1.png" None].
Proof.
  apply (page_image_left_behind_on_error unreadable_services "tmp/3f9a" storage
           scanned_doc [] 1 "tmp/page.1.png" [Byte.x01]).
  - reflexivity.
  - reflexivity.
  - reflexivity.
  - reflexivity.
Defined.

(** The whole request on the unreadable scan: status 500, and both the
    upload and the image of page 1 are still on storage. *)
Example unreadable_run :
  let run := post_extract unreadable_services {| file := Some upload |} storage in
  run.1 = Returned (Json 500 (ErrorBody "Internal Server Error")) ∧
  files run.2 !! "tmp/3f9a"%string = Some scanned_doc ∧
  files run.2 !! "tmp/page.1.png"%string = Some [Byte.x01].
Proof. by vm_compute. Qed.

End HandlerRuns.


(* ================================================================== *)
(** ** More on [trim] and on the OCR test *)
(* ================================================================== *)

Lemma drop_spaces_app_spaces ws s :
  Forall (λ ch, is_space ch = true) ws → drop_spaces (ws ++ s) = drop_spaces s.
Proof.
  induction 1 as [|c ws Hc _ IH]; simpl; [done|]. by rewrite Hc.
Qed.

Lemma drop_spaces_nil s :
  drop_spaces s = [] ↔ Forall (λ ch, is_space ch = true) s.
Proof.
  split.
  - induction s as [|c s IH]; simpl; [constructor|].
    destruct (is_space c) eqn:E; [|done]. intros Hs. constructor; auto.
  - intros Hs. rewrite <- (app_nil_r s). by rewrite drop_spaces_app_spaces.
Qed.

Lemma drop_spaces_dropped s :
  ∃ ws, s = ws ++ drop_spaces s ∧ Forall (λ ch, is_space ch = true) ws.
Proof.
  induction s as [|c s (ws & E & Hws)]; simpl.
  - by exists [].
  - destruct (is_space c) eqn:Ec.
    + exists (c :: ws). split; [simpl; by f_equal | by constructor].
    + by exists [].
Qed.

(** Dropping spaces in front of [x ++ y] leaves [y] whole when [y] begins
    with something else than a space. *)
Lemma drop_spaces_keeps_tail x c y :
  is_space c = false → ∃ x', drop_spaces (x ++ c :: y) = x' ++ c :: y.
Proof.
  intros Hc. induction x as [|a x [x' IH]]; simpl.
  - rewrite Hc. by exists [].
  - destruct (is_space a); [by exists x' | by exists (a :: x)].
Qed.

Lemma trim_nil_iff s : trim s = [] ↔ Forall (λ ch, is_space ch = true) s.
Proof.
  unfold trim. split.
  - intros Ht.
    assert (Hr : drop_spaces (rev (drop_spaces s)) = []).
    { rewrite <- (rev_involutive (drop_spaces _)). by rewrite Ht. }
    apply drop_spaces_nil in Hr.
    pose proof (drop_spaces_head s) as Hh.
    destruct (drop_spaces s) as [|c u] eqn:Eu; [by apply drop_spaces_nil|].
    apply Forall_rev in Hr. rewrite rev_involutive in Hr.
    inversion Hr; congruence.
  - intros Hs. apply drop_spaces_nil in Hs. by rewrite Hs.
Qed.

Lemma trim_leading_spaces ws s :
  Forall (λ ch, is_space ch = true) ws → trim (ws ++ s) = trim s.
Proof. intros Hws. unfold trim. by rewrite drop_spaces_app_spaces. Qed.

(** [trim] removes spaces only, and only at the two ends. *)
Lemma trim_infix_spaces s :
  ∃ a b, s = a ++ trim s ++ b ∧
         Forall (λ ch, is_space ch = true) a ∧ Forall (λ ch, is_space ch = true) b.
Proof.
  unfold trim.
  destruct (drop_spaces_dropped s) as (a & Ha & Hsa).
  destruct (drop_spaces_dropped (rev (drop_spaces s))) as (b & Hb & Hsb).
  exists a, (rev b). split_and!; [|done|by apply Forall_rev].
  rewrite <- rev_app_distr, <- Hb, rev_involutive. exact Ha.
Qed.

(** A prefix without spaces survives [trim]. *)
Lemma trim_keeps_prefix a b :
  a ≠ [] → Forall (λ ch, is_space ch = false) a → ∃ r, trim (a ++ b) = a ++ r.
Proof.
  intros Hne Ha. unfold trim.
  assert (E1 : drop_spaces (a ++ b) = a ++ b).
  { destruct a as [|c a]; [done|]. inversion Ha; subst. by apply drop_spaces_id. }
  rewrite E1, rev_app_distr.
  destruct (rev a) as [|c ra] eqn:Era.
  { apply (f_equal (@rev N)) in Era. rewrite rev_involutive in Era. done. }
  assert (Hc : is_space c = false).
  { apply Forall_rev in Ha. rewrite Era in Ha. by inversion Ha. }
  destruct (drop_spaces_keeps_tail (rev b) c ra Hc) as [x' ->].
  exists (rev x'). rewrite rev_app_distr. f_equal.
  rewrite <- Era. apply rev_involutive.
Qed.

Lemma startsWith_app p r : startsWith (p ++ r) p = true.
Proof. induction p as [|a p IH]; simpl; [by destruct r|]. by rewrite N.eqb_refl. Qed.

Lemma startsWith_inv s p : startsWith s p = true → ∃ r, s = p ++ r.
Proof.
  revert s. induction p as [|a p IH]; intros s Hs.
  - by exists s.
  - destruct s as [|b s]; [done|]. simpl in Hs.
    apply andb_true_iff in Hs as [Hab Hs]. apply N.eqb_eq in Hab as ->.
    destruct (IH _ Hs) as [r ->]. by exists r.
Qed.

(** X11. The test that sends a document to OCR, read on the text itself: the
    text is made of white space only (the empty text included), or it is
    white space followed by ["%PDF"]. *)
Theorem needs_ocr_iff pdfText :
  needs_ocr pdfText = true ↔
  Forall (λ ch, is_space ch = true) pdfText ∨
  ∃ ws more, Forall (λ ch, is_space ch = true) ws ∧ pdfText = ws ++ js "%PDF" ++ more.
Proof.
  unfold needs_ocr. split.
  - intros Hn. apply orb_true_iff in Hn as [Hn|Hn].
    + left. apply trim_nil_iff. by destruct (trim pdfText).
    + right. apply startsWith_inv in Hn as [r Hr].
      destruct (trim_infix_spaces pdfText) as (a & b & E & Ha & _).
      exists a, (r ++ b). split; [done|].
      rewrite Hr in E. rewrite E at 1. by rewrite <- !app_assoc.
  - intros [Hs|(ws & more & Hws & ->)].
    + apply trim_nil_iff in Hs. by rewrite Hs.
    + rewrite trim_leading_spaces by done.
      destruct (trim_keeps_prefix (js "%PDF") more) as [r ->].
      * done.
      * by repeat constructor.
      * rewrite startsWith_app. apply orb_true_r.
Qed.

(* ================================================================== *)
(** ** More on the late-policy filter *)
(* ================================================================== *)

Section FilterProperties.
Context `{CaseTables}.

Lemma filter_all {A} (f : A → bool) l :
  Forall (λ a, f a = true) l → List.filter f l = l.
Proof. induction 1 as [|a l Ha _ IH]; simpl; [done|]. by rewrite Ha, IH. Qed.

Lemma filter_none {A} (f : A → bool) l :
  Forall (λ a, f a = false) l → List.filter f l = [].
Proof. induction 1 as [|a l Ha _ IH]; simpl; [done|]. by rewrite Ha. Qed.

(** X12. The filter at its two ends: a text whose lines all mention late or
    penalty comes back unchanged, line breaks included; a text none of
    whose lines does comes back as the empty string. *)
Theorem filterLatePolicy_all_or_nothing text :
  (Forall (λ line, mentions_late_or_penalty line = true) (split LF text) →
   filterLatePolicy text = text) ∧
  (Forall (λ line, mentions_late_or_penalty line = false) (split LF text) →
   filterLatePolicy text = []).
Proof.
  unfold filterLatePolicy. split; intros Hall.
  - rewrite filter_all by done. apply join_split.
  - by rewrite filter_none.
Qed.

End FilterProperties.

(* ================================================================== *)
(** ** When a section is found *)
(* ================================================================== *)

Section Completeness.
Context `{CaseTables}.

Lemma repeat_lazy_complete a body tail k z :
  Forall (λ ch, class_matches a ch = true) body →
  k tail = Some z →
  (∀ j, j < length body → k (drop j (body ++ tail)) = None) →
  repeat_lazy a (body ++ tail) k = Some z.
Proof.
  induction body as [|ch body IH]; intros Hb Hk Hmin.
  - simpl. destruct tail; simpl; by rewrite Hk.
  - inversion Hb as [|? ? Hch Hb']; subst.
    change (repeat_lazy a ((ch :: body) ++ tail) k) with
      (match k (ch :: body ++ tail) with
       | Some z => Some z
       | None => if class_matches a ch then repeat_lazy a (body ++ tail) k else None
       end).
    pose proof (Hmin 0 ltac:(simpl; lia)) as H0. cbn [drop app] in H0.
    rewrite H0, Hch.
    apply IH; [done|done|]. intros j Hj. apply (Hmin (S j)). simpl. lia.
Qed.

Lemma capture_stage_complete look (here : jsstring → bool) body tail :
  (∀ x c, m (Lookahead look) x c = if here (rest x) then c x else None) →
  Forall (λ ch, is_LineTerminator ch = false) body →
  here tail = true →
  (∀ j, j < length body → here (drop j (body ++ tail)) = false) →
  m (Seq (Group (Star AnyChar false)) (Lookahead look))
    {| rest := body ++ tail; cap1 := None |} Some =
  Some {| rest := tail; cap1 := Some body |}.
Proof.
  intros Hlook Hb Ht Hmin.
  change (repeat_lazy AnyChar (body ++ tail)
            (λ s, m (Lookahead look)
                    {| rest := s;
                       cap1 := Some (take (length (body ++ tail) - length s) (body ++ tail)) |}
                    Some) =
          Some {| rest := tail; cap1 := Some body |}).
  apply repeat_lazy_complete.
  - eapply Forall_impl; [exact Hb|]. intros ch Hch. simpl. by rewrite Hch.
  - rewrite Hlook. cbn [rest]. rewrite Ht. by rewrite take_between.
  - intros j Hj. rewrite Hlook. cbn [rest]. by rewrite (Hmin j Hj).
Qed.

Lemma repeat_greedy_None a s k : repeat_greedy a s k = None → k s = None.
Proof.
  destruct s as [|ch s]; simpl; [done|].
  destruct (class_matches a ch); [|done].
  by destruct (repeat_greedy a s k).
Qed.

(** A run of matching characters that ends before [s'] is no longer than
    [run] when [s'] does not start with a matching character. *)
Lemma class_run_bound a run1 s1 run s' :
  run1 ++ s1 = run ++ s' →
  Forall (λ ch, class_matches a ch = true) run1 →
  match s' with [] => True | ch :: _ => class_matches a ch = false end →
  length run1 ≤ length run.
Proof.
  revert run. induction run1 as [|c run1 IH]; intros run E Hrun Hs'; simpl; [lia|].
  inversion Hrun as [|? ? Hc Hrun']; subst.
  destruct run as [|c' run]; simpl in *.
  - destruct s' as [|c' s']; [done|]. inversion E; subst. congruence.
  - inversion E; subst. apply IH in H2; [lia|done|done].
Qed.

(** A greedy repetition over a region in which the continuation, where
    it accepts, always gives the same state, gives that state as soon as
    the continuation accepts at the start. *)
Lemma repeat_greedy_same a run s' k z :
  match s' with [] => True | ch :: _ => class_matches a ch = false end →
  (∀ j, j ≤ length run →
     k (drop j (run ++ s')) = None ∨ k (drop j (run ++ s')) = Some z) →
  k (run ++ s') = Some z →
  repeat_greedy a (run ++ s') k = Some z.
Proof.
  intros Hs' Hsame Hstart.
  destruct (repeat_greedy a (run ++ s') k) as [z'|] eqn:Eg.
  - apply repeat_greedy_sound in Eg as (run1 & s1 & E & Hrun1 & Hk).
    assert (Hl : length run1 ≤ length run).
    { eapply class_run_bound; [symmetry; exact E|done|done]. }
    destruct (Hsame (length run1) Hl) as [Hn|Hz];
      rewrite E, drop_app_length in *; congruence.
  - apply repeat_greedy_None in Eg. congruence.
Qed.

(** The three separator stages and the capture, from a place inside a run
    of white space that leads to the body. *)
Lemma after_separators look ws b0 body tail z :
  Forall (λ ch, class_matches WhiteSpaceClass ch = true) ws →
  is_separator b0 = false →
  m (Seq (Group (Star AnyChar false)) (Lookahead look))
    {| rest := b0 :: body ++ tail; cap1 := None |} Some = Some z →
  repeat_greedy WhiteSpaceClass (ws ++ b0 :: body ++ tail)
    (λ s5, m (Seq (Group (Star AnyChar false)) (Lookahead look))
             {| rest := s5; cap1 := None |} Some) = Some z ∧
  repeat_greedy (Bracket [COLON; LF]) (ws ++ b0 :: body ++ tail)
    (λ s4, repeat_greedy WhiteSpaceClass s4
             (λ s5, m (Seq (Group (Star AnyChar false)) (Lookahead look))
                      {| rest := s5; cap1 := None |} Some)) = Some z.
Proof.
  intros Hws Hb0 Hcap.
  apply orb_false_iff in Hb0 as [Hb0w Hb0s].
  induction Hws as [|c ws Hc _ [IH3 IH2]].
  - split.
    + cbn [app repeat_greedy]. rewrite Hb0w. exact Hcap.
    + cbn [app repeat_greedy]. rewrite Hb0s. cbn [repeat_greedy].
      rewrite Hb0w. exact Hcap.
  - split.
    + cbn [app repeat_greedy]. rewrite Hc. by rewrite IH3.
    + cbn [app repeat_greedy]. destruct (class_matches (Bracket [COLON; LF]) c).
      * by rewrite IH2.
      * cbn [repeat_greedy]. rewrite Hc. by rewrite IH3.
Qed.

(** A match at the start of [s]: the heading, one colon or line feed,
    white space, then a body that begins with something else than a
    separator, lies on one line and stops at the first place the
    lookahead accepts. *)
Lemma section_pattern_complete heading look (here : jsstring → bool) sepch ws b0 body tail s :
  (∀ x c, m (Lookahead look) x c = if here (rest x) then c x else None) →
  ci_strip heading s = Some (sepch :: ws ++ b0 :: body ++ tail) →
  class_matches (Bracket [COLON; LF]) sepch = true →
  Forall (λ ch, class_matches WhiteSpaceClass ch = true) ws →
  is_separator b0 = false →
  Forall (λ ch, is_LineTerminator ch = false) (b0 :: body) →
  here tail = true →
  (∀ j, j < length (b0 :: body) → here (drop j (b0 :: body ++ tail)) = false) →
  m (section_pattern heading look) {| rest := s; cap1 := None |} Some =
  Some {| rest := tail; cap1 := Some (b0 :: body) |}.
Proof.
  intros Hlook Hh Hsep Hws Hb0 Hline Ht Hmin.
  set (z := {| rest := tail; cap1 := Some (b0 :: body) |}).
  pose proof (capture_stage_complete look here (b0 :: body) tail Hlook Hline Ht Hmin) as Hcap.
  change ((b0 :: body) ++ tail) with (b0 :: body ++ tail) in Hcap. fold z in Hcap.
  unfold section_pattern.
  set (stage5 := Seq (Group (Star AnyChar false)) (Lookahead look)) in *.
  change (m (lit heading) {| rest := s; cap1 := None |}
            (λ y, m (Seq (Star WhiteSpaceClass true)
                    (Seq (Plus (Bracket [COLON; LF]) true)
                      (Seq (Star WhiteSpaceClass true) stage5))) y Some) = Some z).
  rewrite m_lit. cbn [rest]. rewrite Hh.
  set (k3 := λ s5, m stage5 {| rest := s5; cap1 := None |} Some).
  set (k2 := λ s4, repeat_greedy WhiteSpaceClass s4 k3).
  set (k1 := λ s2 : jsstring,
         match s2 with
         | ch :: s3 =>
             if class_matches (Bracket [COLON; LF]) ch
             then repeat_greedy (Bracket [COLON; LF]) s3 k2 else None
         | [] => None
         end).
  change (repeat_greedy WhiteSpaceClass (sepch :: ws ++ b0 :: body ++ tail) k1 = Some z).
  assert (Hafter : ∀ ws', Forall (λ ch, class_matches WhiteSpaceClass ch = true) ws' →
            repeat_greedy (Bracket [COLON; LF]) (ws' ++ b0 :: body ++ tail) k2 = Some z).
  { intros ws' Hws'. by apply (after_separators look ws' b0 body tail z). }
  assert (Hb0s : class_matches (Bracket [COLON; LF]) b0 = false).
  { by apply orb_false_iff in Hb0 as [_ ?]. }
  assert (Hb0w : class_matches WhiteSpaceClass b0 = false).
  { by apply orb_false_iff in Hb0 as [? _]. }
  change (sepch :: ws ++ b0 :: body ++ tail) with ((sepch :: ws) ++ b0 :: body ++ tail).
  apply repeat_greedy_same.
  - exact Hb0w.
  - intros j Hj.
    destruct (drop j ((sepch :: ws) ++ b0 :: body ++ tail)) as [|c r] eqn:Ed; [by left|].
    unfold k1. destruct (class_matches (Bracket [COLON; LF]) c) eqn:Ec; [|by left].
    right.
    destruct (decide (j = length (sepch :: ws))) as [->|Hne].
    + rewrite drop_app_length in Ed. inversion Ed; subst. congruence.
    + rewrite drop_app_le in Ed by lia.
      assert (Hr : ∃ ws', r = ws' ++ b0 :: body ++ tail ∧
                          Forall (λ ch, class_matches WhiteSpaceClass ch = true) ws').
      { destruct (drop j (sepch :: ws)) as [|c' ws'] eqn:Ed'.
        - apply (f_equal length) in Ed'. rewrite length_drop in Ed'. simpl in *. lia.
        - inversion Ed; subst. exists ws'. split; [done|].
          destruct j as [|j]; simpl in Ed'.
          + by inversion Ed'; subst.
          + assert (Hd : Forall (λ ch, class_matches WhiteSpaceClass ch = true) (drop j ws))
              by by apply Forall_drop.
            rewrite Ed' in Hd. by inversion Hd. }
      destruct Hr as (ws' & -> & Hws'). by apply Hafter.
  - unfold k1. cbn [app]. rewrite Hsep. by apply Hafter.
Qed.

(** [scan] settles on index [length pre] when the pattern matches there
    and at no index before. *)
Lemma scan_first r pre s i z :
  (∀ j, j < length pre → m r {| rest := drop j (pre ++ s); cap1 := None |} Some = None) →
  m r {| rest := s; cap1 := None |} Some = Some z →
  scan r (pre ++ s) i = Some (i + length pre, z).
Proof.
  revert i. induction pre as [|c pre IH]; intros i Hnone Hm.
  - simpl. destruct s; simpl; rewrite Hm; f_equal; f_equal; lia.
  - pose proof (Hnone 0 ltac:(simpl; lia)) as H0. cbn [drop app] in H0.
    cbn [app scan]. rewrite H0.
    rewrite IH; [f_equal; f_equal; simpl; lia| |done].
    intros j Hj. apply (Hnone (S j)). simpl. lia.
Qed.

Lemma pattern_needs_heading heading look s :
  ci_prefix heading s = false →
  m (section_pattern heading look) {| rest := s; cap1 := None |} Some = None.
Proof.
  intros Hp. unfold section_pattern.
  change (m (Seq (lit heading) ?r) ?x Some) with (m (lit heading) x (λ y, m r y Some)).
  rewrite m_lit. cbn [rest].
  destruct (ci_strip heading s) eqn:E; [|done].
  by rewrite (ci_prefix_Some _ _ _ E) in Hp.
Qed.

Lemma located_found heading look (here : jsstring → bool) text pre hd sepch ws body tail b0 :
  (∀ x c, m (Lookahead look) x c = if here (rest x) then c x else None) →
  text = pre ++ hd ++ sepch :: ws ++ body ++ tail →
  (∀ j, j < length pre → ci_prefix heading (drop j text) = false) →
  ci_strip heading (hd ++ sepch :: ws ++ body ++ tail) = Some (sepch :: ws ++ body ++ tail) →
  class_matches (Bracket [COLON; LF]) sepch = true →
  Forall (λ ch, class_matches WhiteSpaceClass ch = true) ws →
  head body = Some b0 → is_separator b0 = false →
  single_line body →
  here tail = true →
  (∀ j, j < length body → here (drop j (body ++ tail)) = false) →
  exec (section_pattern heading look) text =
    Some (length pre, {| rest := tail; cap1 := Some body |}).
Proof.
  intros Hlook -> Hearlier Hh Hsep Hws Hhead Hb0 Hline Ht Hmin.
  destruct body as [|b body]; [done|]. inversion Hhead; subst b.
  unfold exec. rewrite scan_first with (z := {| rest := tail; cap1 := Some (b0 :: body) |}).
  - done.
  - intros j Hj. apply pattern_needs_heading. by apply Hearlier.
  - eapply section_pattern_complete; try done.
Qed.

(** X7. A section is found by [extractSection] when the text reads: the
    heading (in any letter case, and not matching anywhere before), one
    colon or line feed, white space, then a body that begins with
    something else than a separator, lies on one line, and is followed
    by the end of the text or by a line feed and two letters, with no
    such place inside the body. The result is the trimmed body. *)
Theorem extractSection_found text heading pre hd sepch ws body tail b0 :
  plain heading = true →
  text = pre ++ hd ++ sepch :: ws ++ body ++ tail →
  (∀ j, j < length pre → ci_prefix heading (drop j text) = false) →
  ci_strip heading (hd ++ sepch :: ws ++ body ++ tail) = Some (sepch :: ws ++ body ++ tail) →
  class_matches (Bracket [COLON; LF]) sepch = true →
  Forall (λ ch, class_matches WhiteSpaceClass ch = true) ws →
  head body = Some b0 → is_separator b0 = false →
  single_line body →
  default_here tail = true →
  (∀ j, j < length body → default_here (drop j (body ++ tail)) = false) →
  extractSection text heading = Some (trim body).
Proof.
  intros _ Ht Hearlier Hh Hsep Hws Hhead Hb0 Hline Htail Hmin.
  unfold extractSection.
  by rewrite (located_found _ _ _ _ _ _ _ _ _ _ _ m_default_look
                Ht Hearlier Hh Hsep Hws Hhead Hb0 Hline Htail Hmin).
Qed.

(** X8. The same for [extractSectionWithBoundaries], with a non-empty list
    of boundaries: the body is followed by the end of the text or by a
    boundary line, and no boundary line starts inside it. *)
Theorem extractSectionWithBoundaries_found text heading bs pre hd sepch ws body tail b0 :
  plain heading = true → forallb plain bs = true → bs ≠ [] →
  text = pre ++ hd ++ sepch :: ws ++ body ++ tail →
  (∀ j, j < length pre → ci_prefix heading (drop j text) = false) →
  ci_strip heading (hd ++ sepch :: ws ++ body ++ tail) = Some (sepch :: ws ++ body ++ tail) →
  class_matches (Bracket [COLON; LF]) sepch = true →
  Forall (λ ch, class_matches WhiteSpaceClass ch = true) ws →
  head body = Some b0 → is_separator b0 = false →
  single_line body →
  (tail = [] ∨ boundary_at bs tail = true) →
  (∀ j, j < length body → boundary_at bs (drop j (body ++ tail)) = false) →
  extractSectionWithBoundaries text heading bs = Some (trim body).
Proof.
  intros _ _ Hbs Ht Hearlier Hh Hsep Hws Hhead Hb0 Hline Htail Hmin.
  assert (Hhere_eq : ∀ s, boundary_here bs s = boundary_at bs s || bool_decide (s = [])).
  { intros s. by destruct bs. }
  unfold extractSectionWithBoundaries.
  rewrite (located_found _ _ (boundary_here bs) _ _ _ _ _ _ _ _ (m_boundary_look bs)
             Ht Hearlier Hh Hsep Hws Hhead Hb0 Hline); [done| |].
  - rewrite Hhere_eq. destruct Htail as [->| ->]; [|done].
    by rewrite boundary_at_nil.
  - intros j Hj. rewrite Hhere_eq, (Hmin j Hj). simpl.
    apply bool_decide_eq_false. intros E.
    apply (f_equal length) in E. rewrite length_drop, length_app in E. simpl in E. lia.
Qed.

End Completeness.

(* ================================================================== *)
(** ** Letter case, empty boundaries, order of the headings *)
(* ================================================================== *)

Section LocatorOrder.
Context `{CaseTables}.

Lemma ci_strip_ext p p' s :
  Forall2 (λ a b, canonicalize a = canonicalize b) p p' →
  ci_strip p s = ci_strip p' s.
Proof.
  intros Hp. revert s. induction Hp as [|a b p p' Hab _ IH]; intros s; simpl; [done|].
  destruct s as [|c s]; [done|]. unfold ci_eqb. rewrite Hab.
  by rewrite IH.
Qed.

Lemma scan_ext r r' s i :
  (∀ x, m r x Some = m r' x Some) → scan r s i = scan r' s i.
Proof.
  intros Hr. revert i. induction s as [|c s IH]; intros i; simpl; rewrite Hr; [done|].
  by rewrite IH.
Qed.

Lemma section_pattern_ext heading heading' look x :
  Forall2 (λ a b, canonicalize a = canonicalize b) heading heading' →
  m (section_pattern heading look) x Some = m (section_pattern heading' look) x Some.
Proof.
  intros Hh. unfold section_pattern.
  change (m (Seq (lit ?h) ?r) x Some) with (m (lit h) x (λ y, m r y Some)).
  rewrite !m_lit. by rewrite (ci_strip_ext _ _ _ Hh).
Qed.

(** X6. The letter case of the heading does not count: two headings whose
    characters canonicalize alike locate the same text, with the
    default boundary and with any list of boundaries. *)
Theorem heading_case_insensitive text heading heading' bs :
  plain heading = true → plain heading' = true →
  Forall2 (λ a b, canonicalize a = canonicalize b) heading heading' →
  extractSection text heading = extractSection text heading' ∧
  extractSectionWithBoundaries text heading bs =
  extractSectionWithBoundaries text heading' bs.
Proof.
  intros _ _ Hh. unfold extractSection, extractSectionWithBoundaries, exec.
  split; f_equal; apply scan_ext; intros x; by apply section_pattern_ext.
Qed.

(** With an empty array of boundaries the lookahead is [(?=|$)], which
    holds everywhere, so the lazy body is empty: the call gives [null] or
    the empty string, never a text. *)
Lemma no_boundaries_no_text text heading :
  extractSectionWithBoundaries text heading [] = None ∨
  extractSectionWithBoundaries text heading [] = Some [].
Proof.
  destruct (extractSectionWithBoundaries text heading []) as [v|] eqn:Ev; [|by left].
  right. f_equal. unfold extractSectionWithBoundaries in Ev.
  apply trimmed_group1_Some in Ev as (i & z & Hex & ->).
  apply (exec_shape _ _ (boundary_here []) _ _ _ (m_boundary_look [])) in Hex
    as (pre & hd & seps & body & tail & _ & _ & _ & _ & _ & _ & _ & -> & _ & Hmin).
  destruct body as [|b body]; [done|].
  specialize (Hmin 0 ltac:(simpl; lia)). done.
Qed.

(** X9. An entry whose [boundaries] is the empty array is handled like an
    entry without boundaries, for headings free of pattern syntax: the
    loop with boundaries finds nothing truthy and the default pass
    decides. *)
Theorem empty_boundaries_fall_back text hs flt :
  forallb plain hs = true →
  locateSection text {| headings := hs; boundaries := Some []; filter := flt |} =
  extractSectionMultiple text hs.
Proof.
  intros _. unfold locateSection. cbn [boundaries headings].
  destruct (boundary_pass_result text hs [] None eq_refl) as [Hf|(h & v & _ & Hv & Hne & _)].
  - cbv zeta. by rewrite Hf.
  - destruct (no_boundaries_no_text text h) as [E|E]; rewrite E in Hv; congruence.
Qed.

Lemma boundary_pass_first text hs1 heading hs2 bs v0 v :
  (∀ h, h ∈ hs1 → truthy (extractSectionWithBoundaries text h bs) = false) →
  extractSectionWithBoundaries text heading bs = Some v → v ≠ [] →
  boundary_pass text (hs1 ++ heading :: hs2) bs v0 = Some v.
Proof.
  revert v0. induction hs1 as [|h hs1 IH]; intros v0 Hfalsy Hv Hne; simpl.
  - rewrite Hv. by destruct v.
  - rewrite (Hfalsy h) by by left. apply IH; [|done|done].
    intros h' Hin. apply Hfalsy. by right.
Qed.

Lemma boundary_pass_falsy text hs bs v0 :
  truthy v0 = false →
  (∀ h, h ∈ hs → truthy (extractSectionWithBoundaries text h bs) = false) →
  truthy (boundary_pass text hs bs v0) = false.
Proof.
  revert v0. induction hs as [|h hs IH]; intros v0 Hv0 Hfalsy; simpl; [done|].
  rewrite (Hfalsy h) by by left. apply IH; [by apply Hfalsy; left|].
  intros h' Hin. apply Hfalsy. by right.
Qed.

Lemma extractSectionMultiple_first text hs1 heading hs2 v :
  (∀ h, h ∈ hs1 → truthy (extractSection text h) = false) →
  extractSection text heading = Some v → v ≠ [] →
  extractSectionMultiple text (hs1 ++ heading :: hs2) = Some v.
Proof.
  induction hs1 as [|h hs1 IH]; intros Hfalsy Hv Hne; simpl.
  - rewrite Hv. by destruct v.
  - rewrite (Hfalsy h) by by left. apply IH; [|done|done].
    intros h' Hin. apply Hfalsy. by right.
Qed.

(** X4. The order in which an entry with boundaries is resolved: the
    first heading of the list, in list order, for which the pattern with
    boundaries gives a non-empty text decides, whatever the default
    pattern would give for any heading. *)
Theorem boundary_pass_has_priority text hs1 heading hs2 bs flt v :
  (∀ h, h ∈ hs1 → truthy (extractSectionWithBoundaries text h bs) = false) →
  extractSectionWithBoundaries text heading bs = Some v → v ≠ [] →
  locateSection text
    {| headings := hs1 ++ heading :: hs2; boundaries := Some bs; filter := flt |} = Some v.
Proof.
  intros Hfalsy Hv Hne. unfold locateSection. cbn [boundaries headings].
  rewrite (boundary_pass_first _ _ _ _ _ _ _ Hfalsy Hv Hne). by destruct v.
Qed.

(** X5. The default pass counts only when the pattern with boundaries
    gives nothing (null or the empty string) for every heading of the
    entry; then the first heading of the list for which the default
    pattern gives a non-empty text decides. *)
Theorem default_pass_is_second text hs1 heading hs2 bs flt v :
  (∀ h, h ∈ hs1 ++ heading :: hs2 →
     truthy (extractSectionWithBoundaries text h bs) = false) →
  (∀ h, h ∈ hs1 → truthy (extractSection text h) = false) →
  extractSection text heading = Some v → v ≠ [] →
  locateSection text
    {| headings := hs1 ++ heading :: hs2; boundaries := Some bs; filter := flt |} = Some v.
Proof.
  intros Hb Hfalsy Hv Hne. unfold locateSection. cbn [boundaries headings].
  rewrite (boundary_pass_falsy _ _ _ None eq_refl Hb).
  by apply extractSectionMultiple_first.
Qed.

(** X10. A text that ends with a line feed, as every text built by the OCR
    loop does: a non-empty result of [extractSection] never comes from a
    body that runs to the end of the text; it was stopped by a line feed
    followed by two letters. The last line of such a text is never
    returned. The heading is free of pattern syntax. *)
Theorem ocr_text_last_line_lost pages heading v :
  plain heading = true →
  extractSection (ocr_text pages) heading = Some v → v ≠ [] →
  ∃ pre body tail,
    ocr_text pages = pre ++ body ++ tail ∧ v = trim body ∧
    tail ≠ [] ∧ default_here tail = true.
Proof.
  intros _ Hv Hne.
  apply default_look_ends_body in Hv
    as (pre & hd & seps & body & tail & Ht & _ & -> & Hline & Hhere & _).
  exists (pre ++ hd ++ seps), body, tail. split_and!; try done.
  - by rewrite <- !app_assoc.
  - intros ->. rewrite app_nil_r in Ht.
    destruct (decide (body = [])) as [->|Hb]; [done|].
    assert (Hlast : ∃ t, ocr_text pages = t ++ [LF]).
    { unfold ocr_text. destruct pages as [|pg pages _] using rev_ind.
      - simpl in Ht. by destruct pre, hd, seps, body.
      - rewrite map_app, concat_app. simpl. rewrite app_nil_r.
        exists (concat (List.map (λ pg0, pg0.2 ++ [LF]) pages) ++ pg.2).
        by rewrite <- !app_assoc. }
    destruct Hlast as [t Et]. rewrite Et in Ht.
    destruct body as [|b body _] using rev_ind; [done|].
    rewrite !app_assoc in Ht. apply app_inj_tail in Ht as [_ <-].
    apply Forall_app in Hline as [_ Hline]. by inversion Hline.
Qed.

End LocatorOrder.

(* ================================================================== *)
(** ** Answers of the handler and what stays on storage *)
(* ================================================================== *)

Section HandlerProperties.
Context `{CaseTables}.
Variable sv : Services.

Lemma extractTextFromPDF_missing p w :
  files w !! p = None →
  extractTextFromPDF sv p w =
    (Thrown, {| files := files w; trace := trace w ++ [ReadFile p false] |}).
Proof.
  intros Hf. unfold extractTextFromPDF, try_catch, mbind, Async_bind, bind, readFile, log.
  by rewrite Hf.
Qed.

(** X1. The handler never throws. It answers 400 without a single external
    call when the request has no file or the file has no name; else 200
    with the data extracted from some text, the upload being gone from
    storage; else 500. *)
Theorem post_extract_answers req w :
  ∃ w',
    (file req = None ∧ w' = w ∧
     post_extract sv req w = (Returned (Json 400 (ErrorBody "No file provided.")), w')) ∨
    (∃ f, file req = Some f ∧ originalname f = [] ∧ w' = w ∧
     post_extract sv req w = (Returned (Json 400 (ErrorBody "No file selected.")), w')) ∨
    (∃ f pdfText, file req = Some f ∧ originalname f ≠ [] ∧
     files w' !! path f = None ∧
     post_extract sv req w =
       (Returned (Json 200 (DataBody (extractedData pdfText))), w')) ∨
    (∃ f, file req = Some f ∧ originalname f ≠ [] ∧
     post_extract sv req w =
       (Returned (Json 500 (ErrorBody "Internal Server Error")), w')).
Proof.
  unfold post_extract, try_catch.
  destruct (file req) as [f|] eqn:Ef; [|exists w; by left].
  destruct (originalname f) as [|c name] eqn:En.
  { exists w. right. left. exists f. done. }
  unfold mbind, Async_bind, bind.
  destruct (extractTextFromPDF sv (path f) w) as [[t|] w1].
  2:{ exists w1. do 3 right. exists f. by rewrite En. }
  match goal with
  | |- context [(if ?b then ?x else ?y) w1] =>
      destruct ((if b then x else y) w1) as [[t2|] w2]
  end.
  2:{ exists w2. do 3 right. exists f. by rewrite En. }
  unfold unlink, log.
  destruct (files w2 !! path f) eqn:Ef2.
  - eexists. right. right. left. exists f, t2. rewrite En.
    split_and!; [done|done| |reflexivity]. cbn [files]. apply lookup_delete_eq.
  - eexists. do 3 right. exists f. by rewrite En.
Qed.

(** The loop of [extractTextWithOCR] touches the images it saves and
    nothing else, as long as the converter does not save an image over
    the document it reads. *)
Lemma ocr_pages_frame p doc remaining i ocrText w out w' :
  files w !! p = Some doc →
  convert_avoids sv doc p →
  ocr_pages sv p remaining i ocrText w = (out, w') →
  files w' !! p = Some doc ∧
  ∀ q, convert_avoids sv doc q → files w' !! q = files w !! q.
Proof.
  intros Hf Hp. revert i ocrText w out w' Hf.
  induction remaining as [|n IH]; intros i ocrText w out w' Hf Hrun.
  - inversion Hrun; subst. done.
  - cbn [ocr_pages] in Hrun. unfold mbind, Async_bind, bind in Hrun.
    unfold converter at 1, log in Hrun. rewrite Hf in Hrun.
    destruct (convert sv doc i) as [[image bytes]|] eqn:Ec; cycle 1.
    { inversion Hrun; subst. done. }
    unfold Tesseract_recognize at 1, log in Hrun. cbn [files trace] in Hrun.
    rewrite lookup_insert_eq in Hrun.
    destruct (recognize sv bytes) as [text|] eqn:Er; cycle 1.
    { inversion Hrun; subst. cbn [files]. split.
      - rewrite lookup_insert_ne; [done|]. by eapply Hp.
      - intros q Hq. rewrite lookup_insert_ne; [done|]. by eapply Hq. }
    unfold unlink at 1, log in Hrun. cbn [files trace] in Hrun.
    rewrite lookup_insert_eq in Hrun.
    apply IH in Hrun as [Hp' Hq'].
    + split; [done|]. intros q Hq. rewrite (Hq' q Hq). cbn [files].
      rewrite lookup_delete_ne, lookup_insert_ne; [done| |]; by eapply Hq.
    + cbn [files]. rewrite lookup_delete_ne, lookup_insert_ne; [done| |]; by eapply Hp.
Qed.

(** X2. On storage, the upload tells the answer. When the upload is there at
    the start and the converter does not save an image over it, the
    request ends with status 200 and the upload removed, or with status
    500 and the upload still in place; and every file the converter does
    not write to is after the request as it was before. *)
Theorem upload_removed_iff_ok f w doc :
  originalname f ≠ [] →
  files w !! path f = Some doc →
  convert_avoids sv doc (path f) →
  ∃ status body w',
    post_extract sv {| file := Some f |} w = (Returned (Json status body), w') ∧
    ((status = 200 ∧ files w' !! path f = None) ∨
     (status = 500 ∧ files w' !! path f = Some doc)) ∧
    ∀ q, q ≠ path f → convert_avoids sv doc q → files w' !! q = files w !! q.
Proof.
  intros Hname Hf Havoid.
  destruct (originalname f) as [|c name] eqn:En; [done|].
  unfold post_extract, try_catch. cbn [file]. rewrite En.
  unfold mbind, Async_bind, bind.
  destruct (pdfParse sv doc) as [[pdfText numPages]|] eqn:Hp; cycle 1.
  { rewrite (extractTextFromPDF_rejected _ _ _ _ Hf Hp).
    eexists _, _, _. split; [reflexivity|]. cbn [files]. split; [by right|done]. }
  rewrite (extractTextFromPDF_ok _ _ _ _ _ Hf Hp). cbn [fst].
  destruct (needs_ocr pdfText).
  - unfold extractTextWithOCR, try_catch, mbind, Async_bind, bind.
    unfold readFile at 1, call_pdfParse at 1, log. cbn [files trace].
    rewrite Hf, Hp. cbn [snd].
    match goal with
    | |- context [ocr_pages sv ?p ?n ?i ?acc ?w0] =>
        destruct (ocr_pages sv p n i acc w0) as [out3 w3] eqn:Erun
    end.
    apply (ocr_pages_frame _ doc) in Erun as [Hp3 Hq3]; [|done|done].
    cbn [files] in Hq3.
    destruct out3 as [text|].
    + unfold unlink, log. rewrite Hp3.
      eexists _, _, _. split; [reflexivity|]. cbn [files]. split.
      * left. split; [done|]. apply lookup_delete_eq.
      * intros q Hne Hq. rewrite lookup_delete_ne by done. by apply Hq3.
    + eexists _, _, _. split; [reflexivity|]. split; [by right|].
      intros q _ Hq. by apply Hq3.
  - unfold unlink, mret, Async_ret, ret, log. cbn [files trace]. rewrite Hf.
    eexists _, _, _. split; [reflexivity|]. cbn [files]. split.
    + left. split; [done|]. apply lookup_delete_eq.
    + intros q Hne _. by rewrite lookup_delete_ne.
Qed.

Lemma ocr_trace_images i pages j image :
  Convert j (Some image) ∈ ocr_trace i pages → image ∈ pages.*1.
Proof.
  revert i. induction pages as [|[img text] pages IH]; intros i Hin; simpl in Hin.
  - by apply elem_of_nil in Hin.
  - apply elem_of_cons in Hin as [[= _ <-]|Hin]; [by left|].
    apply elem_of_cons in Hin as [[=]|Hin].
    apply elem_of_cons in Hin as [[=]|Hin].
    right. by eapply IH.
Qed.

(** When the loop returns, every image it saved is gone, and it left no
    file where there was none. *)
Lemma ocr_pages_clean p remaining i ocrText w text w' :
  ocr_pages sv p remaining i ocrText w = (Returned text, w') →
  ∃ pages,
    trace w' = trace w ++ ocr_trace i pages ∧
    ∀ q, q ∈ pages.*1 ∨ files w !! q = None → files w' !! q = None.
Proof.
  revert i ocrText w. induction remaining as [|n IH]; intros i ocrText w Hrun.
  - inversion Hrun; subst. exists []. split; [by rewrite app_nil_r|].
    intros q [Hq|Hq]; [by apply elem_of_nil in Hq|done].
  - cbn [ocr_pages] in Hrun. unfold mbind, Async_bind, bind in Hrun.
    unfold converter at 1 in Hrun.
    destruct (files w !! p) as [doc|]; [|by inversion Hrun].
    destruct (convert sv doc i) as [[image bytes]|]; [|by inversion Hrun].
    unfold Tesseract_recognize at 1 in Hrun. cbn [files trace] in Hrun.
    rewrite lookup_insert_eq in Hrun.
    destruct (recognize sv bytes) as [t|]; [|by inversion Hrun].
    unfold unlink at 1, log in Hrun. cbn [files trace] in Hrun.
    rewrite lookup_insert_eq in Hrun.
    apply IH in Hrun as (pages & Ht & Hclean). cbn [files trace] in Ht, Hclean.
    exists ((image, t) :: pages). split.
    + rewrite Ht. cbn [ocr_trace page_events]. by rewrite <- !app_assoc.
    + intros q Hq. apply Hclean.
      destruct (decide (q = image)) as [->|Hne].
      * right. apply lookup_delete_eq.
      * destruct Hq as [Hq|Hq].
        -- cbn [fmap list_fmap fst] in Hq. apply elem_of_cons in Hq as [?|?]; [done|by left].
        -- right. by rewrite lookup_delete_ne, lookup_insert_ne.
Qed.

(** X3. After an answer with status 200, none of the images the converter
    saved during the request is left on storage. *)
Theorem page_images_removed_on_success req w body w' :
  post_extract sv req w = (Returned (Json 200 body), w') →
  ∃ new,
    trace w' = trace w ++ new ∧
    ∀ i image, Convert i (Some image) ∈ new → files w' !! image = None.
Proof.
  unfold post_extract, try_catch.
  destruct (file req) as [f|]; [|by intros [=]].
  destruct (originalname f) as [|c name]; [by intros [=]|].
  unfold mbind, Async_bind, bind.
  destruct (files w !! path f) as [doc|] eqn:Hf; cycle 1.
  { rewrite (extractTextFromPDF_missing _ _ Hf). by intros [=]. }
  destruct (pdfParse sv doc) as [[pdfText numPages]|] eqn:Hp; cycle 1.
  { rewrite (extractTextFromPDF_rejected _ _ _ _ Hf Hp). by intros [=]. }
  rewrite (extractTextFromPDF_ok _ _ _ _ _ Hf Hp). cbn [fst].
  destruct (needs_ocr pdfText).
  - unfold extractTextWithOCR, try_catch, mbind, Async_bind, bind.
    unfold readFile at 1, call_pdfParse at 1, log. cbn [files trace].
    rewrite Hf, Hp. cbn [snd].
    match goal with
    | |- context [ocr_pages sv ?p ?n ?i ?acc ?w0] =>
        destruct (ocr_pages sv p n i acc w0) as [[text|] w3] eqn:Erun
    end; [|by intros [=]].
    apply ocr_pages_clean in Erun as (pages & Ht & Hclean). cbn [trace] in Ht.
    unfold unlink, log.
    destruct (files w3 !! path f) eqn:Hf3; [|by intros [=]].
    intros [= _ <-]. cbn [files trace].
    eexists. split.
    { rewrite Ht. rewrite <- !app_assoc. reflexivity. }
    intros i image Hin.
    assert (Himg : image ∈ pages.*1).
    { cbn [app] in Hin.
      apply elem_of_cons in Hin as [[=]|Hin]. apply elem_of_cons in Hin as [[=]|Hin].
      apply elem_of_cons in Hin as [[=]|Hin]. apply elem_of_cons in Hin as [[=]|Hin].
      apply elem_of_app in Hin as [Hin|Hin]; [by eapply ocr_trace_images|].
      apply elem_of_cons in Hin as [[=]|Hin]. by apply elem_of_nil in Hin. }
    destruct (decide (image = path f)) as [->|Hne]; [apply lookup_delete_eq|].
    rewrite lookup_delete_ne by done. apply Hclean. by left.
  - unfold unlink, mret, Async_ret, ret, log. cbn [files trace]. rewrite Hf.
    intros [= _ <-]. cbn [files trace].
    eexists. split.
    { rewrite <- !app_assoc. reflexivity. }
    intros i image Hin. cbn [app] in Hin.
    apply elem_of_cons in Hin as [[=]|Hin]. apply elem_of_cons in Hin as [[=]|Hin].
    apply elem_of_cons in Hin as [[=]|Hin]. by apply elem_of_nil in Hin.
Qed.

End HandlerProperties.


(* ================================================================== *)
(** ** Runs for the properties above *)
(* ================================================================== *)

Section MoreRuns.
#[local] Existing Instance ascii_tables.

Lemma needs_ocr_iff_witness : needs_ocr (LF :: js "  %PDF-1.4") = true.
Proof.
  apply (proj2 (needs_ocr_iff (LF :: js "  %PDF-1.4"))).
  right. exists (LF :: js "  "), (js "-1.4"). split; [by repeat constructor | reflexivity].
Defined.

Lemma filterLatePolicy_all_or_nothing_witness :
  filterLatePolicy two_late_lines = two_late_lines.
Proof.
  apply (proj1 (filterLatePolicy_all_or_nothing two_late_lines)).
  assert (E : split LF two_late_lines =
              [js "Late work: -10% per day"; js "No PENALTY in week 1"]) by by vm_compute.
  rewrite E. repeat constructor.
Defined.

Lemma extractSection_found_witness :
  extractSection scenario_A_next_line (js "Homework:") =
  Some (trim (js "Late submissions incur a 10% penalty per day.")).
Proof.
  apply (extractSection_found scenario_A_next_line (js "Homework:")
           [] (js "Homework:") LF []
           (js "Late submissions incur a 10% penalty per day.")
           (LF :: js "Attendance: ...") 76%N).
  - reflexivity.
  - reflexivity.
  - intros j Hj. simpl in Hj. lia.
  - reflexivity.
  - reflexivity.
  - constructor.
  - reflexivity.
  - reflexivity.
  - unfold single_line. rewrite Forall_forall. intros ch Hin.
    repeat (apply elem_of_cons in Hin as [->|Hin]; [reflexivity|]).
    by apply elem_of_nil in Hin.
  - reflexivity.
  - intros j Hj.
    do 45 (destruct j as [|j]; [reflexivity|]).
    simpl in Hj. lia.
Defined.

Lemma extractSectionWithBoundaries_found_witness :
  extractSectionWithBoundaries scenario_B (js "Grading Scale")
    [js "Attendance"; js "Course Policies"] =
  Some (trim (js "A=90-100, B=80-89")).
Proof.
  apply (extractSectionWithBoundaries_found scenario_B (js "Grading Scale")
           [js "Attendance"; js "Course Policies"]
           [] (js "Grading Scale") COLON [32%N]
           (js "A=90-100, B=80-89") (LF :: js "Attendance: mandatory") 65%N).
  - reflexivity.
  - reflexivity.
  - discriminate.
  - reflexivity.
  - intros j Hj. simpl in Hj. lia.
  - reflexivity.
  - reflexivity.
  - by repeat constructor.
  - reflexivity.
  - reflexivity.
  - unfold single_line. rewrite Forall_forall. intros ch Hin.
    repeat (apply elem_of_cons in Hin as [->|Hin]; [reflexivity|]).
    by apply elem_of_nil in Hin.
  - right. reflexivity.
  - intros j Hj.
    do 17 (destruct j as [|j]; [reflexivity|]).
    simpl in Hj. lia.
Defined.

Lemma heading_case_insensitive_witness :
  extractSection scenario_A_next_line (js "HOMEWORK:") =
  extractSection scenario_A_next_line (js "Homework:") ∧
  extractSectionWithBoundaries scenario_A_next_line (js "HOMEWORK:") [js "Attendance"] =
  extractSectionWithBoundaries scenario_A_next_line (js "Homework:") [js "Attendance"].
Proof.
  apply (heading_case_insensitive scenario_A_next_line (js "HOMEWORK:") (js "Homework:")).
  - reflexivity.
  - reflexivity.
  - by repeat constructor.
Defined.

Lemma boundary_pass_has_priority_witness :
  locateSection scenario_B
    {| headings := [js "Grading Scale:"] ++ js "Grading Scale" :: [];
       boundaries := Some [js "Attendance"; js "Course Policies"];
       filter := None |} = Some (js "A=90-100, B=80-89").
Proof.
  apply boundary_pass_has_priority.
  - intros h Hin. apply list_elem_of_singleton in Hin as ->. by vm_compute.
  - by vm_compute.
  - discriminate.
Defined.

Lemma default_pass_is_second_witness :
  locateSection scale_then_other_line
    {| headings := [] ++ js "Grading Scale:" :: [js "Grading Scale"];
       boundaries := Some [js "Attendance"; js "Course Policies"];
       filter := None |} = Some (js "A=90").
Proof.
  apply default_pass_is_second.
  - intros h Hin. cbn [app] in Hin.
    repeat (apply elem_of_cons in Hin as [->|Hin]; [by vm_compute|]).
    by apply elem_of_nil in Hin.
  - intros h Hin. by apply elem_of_nil in Hin.
  - by vm_compute.
  - discriminate.
Defined.

Lemma empty_boundaries_fall_back_witness :
  locateSection scenario_A_next_line
    {| headings := [js "Homework:"]; boundaries := Some []; filter := None |} =
  extractSectionMultiple scenario_A_next_line [js "Homework:"].
Proof.
  apply (empty_boundaries_fall_back scenario_A_next_line [js "Homework:"] None).
  reflexivity.
Defined.

Lemma ocr_text_last_line_lost_witness :
  ∃ pre body tail,
    ocr_text scanned_pages = pre ++ body ++ tail ∧
    js "Late work loses 10% per day." = trim body ∧
    tail ≠ [] ∧ default_here tail = true.
Proof.
  apply (ocr_text_last_line_lost scanned_pages (js "Homework:")).
  - reflexivity.
  - by vm_compute.
  - discriminate.
Defined.

(** The policy on the last line of a scan is not found: the text ends
    with the line feed the loop appends. *)
Example policy_on_last_line_not_found :
  ocr_text policy_on_last_line =
    js "Homework:" ++ LF :: js "Late work loses 10% per day." ++ [LF] ∧
  extractSection (ocr_text policy_on_last_line) (js "Homework:") = None ∧
  get_property (extractedData (ocr_text policy_on_last_line)) "Late Policy" = Some None.
Proof. by vm_compute. Qed.

Lemma scanned_services_avoid_upload q :
  q ∉ ["tmp/page.1.png"; "tmp/page.2.png"]%string →
  convert_avoids scanned_services scanned_doc q.
Proof.
  intros Hq i image bytes Hc.
  destruct i as [|[|[|i]]]; simpl in Hc; inversion Hc; subst;
    intros <-; apply Hq; [by left | by right; left].
Qed.

Lemma upload_removed_iff_ok_witness :
  ∃ status body w',
    post_extract scanned_services {| file := Some upload |} storage =
      (Returned (Json status body), w') ∧
    ((status = 200 ∧ files w' !! path upload = None) ∨
     (status = 500 ∧ files w' !! path upload = Some scanned_doc)) ∧
    ∀ q, q ≠ path upload → convert_avoids scanned_services scanned_doc q →
         files w' !! q = files storage !! q.
Proof.
  apply (upload_removed_iff_ok scanned_services upload storage scanned_doc).
  - discriminate.
  - reflexivity.
  - apply scanned_services_avoid_upload.
    intros Hin. repeat (apply elem_of_cons in Hin as [Hin|Hin]; [discriminate|]).
    by apply elem_of_nil in Hin.
Defined.

Lemma page_images_removed_on_success_witness :
  ∃ new,
    trace (post_extract scanned_services {| file := Some upload |} storage).2 =
      trace storage ++ new ∧
    ∀ i image, Convert i (Some image) ∈ new →
      files (post_extract scanned_services {| file := Some upload |} storage).2 !! image = None.
Proof.
  apply (page_images_removed_on_success scanned_services {| file := Some upload |} storage
           (DataBody [ ("Late Policy"%string, Some (js "Late work loses 10% per day."));
                       ("Grading Policy"%string, None);
                       ("Grading Weights"%string, None) ])).
  by vm_compute.
Defined.

End MoreRuns.
